(** * Fluxo de Caixa: the analytics of [app.py], embedded and verified

    The development follows the Python source: the rows read from the
    [lancamentos] table, [AnalyticsEngine.calcular_kpis],
    [AnalyticsEngine.calcular_trends], the variation rule of
    [page_comparativo] and the projection of [page_previsoes].

    Numbers.  The column [valor] and every total are modelled as exact
    rationals ([Q], compared with [==]); the rounding of binary floating
    point is not modelled.  What the source can produce beyond the
    rationals, the infinities and the not-a-number of a division by zero in
    [pct_change], is modelled explicitly by the type [float] below. *)

From Stdlib Require Import List ZArith QArith Qfield Qminmax Lia Lqa.
From Stdlib Require Import String Ascii Bool Permutation Sorted Qabs.
Import ListNotations.

Local Open Scope Z_scope.
Local Open Scope Q_scope.

Set Implicit Arguments.

(** ** Sums of rationals: [Series.sum] *)

Fixpoint qsum (l : list Q) : Q :=
  match l with
  | [] => 0
  | x :: l' => x + qsum l'
  end.

(** ** Calendar values

    [datetime] carries the fields of a Python [datetime]; [dt_micros] is the
    time of day in microseconds. *)

Record datetime : Type := mk_datetime {
  dt_year : Z;
  dt_month : Z;
  dt_day : Z;
  dt_micros : Z
}.

(** Days from 1970-01-01 to a civil date of the proleptic Gregorian
    calendar: the ordinal that [datetime] arithmetic is defined on. *)
Definition days_from_civil (y m d : Z) : Z :=
  let y' := (if m <=? 2 then y - 1 else y)%Z in
  let era := (y' / 400)%Z in
  let yoe := (y' - era * 400)%Z in
  let mp := ((m + 9) mod 12)%Z in
  let doy := ((153 * mp + 2) / 5 + d - 1)%Z in
  let doe := (yoe * 365 + yoe / 4 - yoe / 100 + doy)%Z in
  (era * 146097 + doe - 719468)%Z.

Definition micros_per_day : Z := 86400000000%Z.

(** The instant of a [datetime], in microseconds since the epoch. *)
Definition instant (t : datetime) : Z :=
  (days_from_civil (dt_year t) (dt_month t) (dt_day t) * micros_per_day
   + dt_micros t)%Z.

(** [t - timedelta(days=n)], as an instant. *)
Definition minus_days (t : datetime) (n : Z) : Z :=
  (instant t - n * micros_per_day)%Z.

(** [Series.dt.to_period("M")]: the ordinal of the calendar month, in months
    since January 1970 (what pandas stores in a monthly [Period]). *)
Definition to_period_M (t : datetime) : Z :=
  ((dt_year t - 1970) * 12 + (dt_month t - 1))%Z.

(** ** The library functions the source calls

    The pandas parsers and the two [str] methods are not code of this
    repository: the development is parametric in them.  [to_datetime s] is
    [pd.to_datetime(s, errors="coerce")] on one cell ([None] for [NaT]);
    [parse_numeric s] is what [pd.to_numeric(errors="coerce")] makes of a
    text cell ([None] for [NaN]); amounts are finite, a text that pandas
    reads as an infinity is outside the model. *)

Class Runtime : Type := {
  to_datetime : string -> option datetime;
  parse_numeric : string -> option Q;
  str_strip : string -> string;
  str_lower : string -> string
}.

(** ** Rows of the table [lancamentos] *)

(** A value SQLite can hold in the column [valor REAL NOT NULL]: column
    affinity keeps a text that does not look like a number as text. *)
Inductive sql_value : Type :=
| SqlReal (q : Q)
| SqlInt (z : Z)
| SqlText (s : string).

(** A stored row, as [SELECT * FROM lancamentos] returns it. *)
Record DbRow : Type := mk_dbrow {
  db_id : Z;
  db_data : string;
  db_empresa : string;
  db_descricao : string;
  db_categoria : string;
  db_tipo : string;
  db_valor : sql_value;
  db_observacoes : string;
  db_created_at : string;
  db_updated_at : string
}.

(** A row of the DataFrame that [read_lancamentos] returns: the same
    columns, [valor] numeric. *)
Record Lancamento : Type := mk_lancamento {
  id : Z;
  data : string;
  empresa : string;
  descricao : string;
  categoria : string;
  tipo : string;
  valor : Q;
  observacoes : string;
  created_at : string;
  updated_at : string
}.

Definition DataFrame : Type := list Lancamento.

(** [df.empty] *)
Definition df_empty (A : Type) (df : list A) : bool :=
  match df with [] => true | _ => false end.

(** [filtros]: the optional keys of the dictionary. *)
Record Filtros : Type := mk_filtros {
  f_empresa : option string;
  f_data_inicio : option string;
  f_data_fim : option string;
  f_tipo : option string
}.

(** [filtros.get(key)] used as a condition: an absent key and an empty
    string are both false. *)
Definition truthy (o : option string) : option string :=
  match o with
  | Some EmptyString => None
  | other => other
  end.

(** ** Sorting *)

Section Sort.
Variable A : Type.
Variable before : A -> A -> bool.

Fixpoint insert_sorted (x : A) (l : list A) : list A :=
  match l with
  | [] => [x]
  | y :: l' => if before x y then x :: l else y :: insert_sorted x l'
  end.

Fixpoint isort (l : list A) : list A :=
  match l with
  | [] => []
  | x :: l' => insert_sorted x (isort l')
  end.

Variable eq_dec : forall x y : A, {x = y} + {x <> y}.

(** The distinct values of [l] in order: the keys of a [groupby]. *)
Definition sort_uniq (l : list A) : list A := isort (nodup eq_dec l).
End Sort.

(** ** Floating-point results

    A float is a rational, an infinity or the not-a-number.  The operations
    follow IEEE 754 on the special values (signed zeros and rounding are not
    modelled). *)
Inductive float : Type :=
| Fin (q : Q)
| PInf
| NInf
| NaN.

Definition is_nan (x : float) : bool :=
  match x with NaN => true | _ => false end.

Definition is_finite (x : float) : bool :=
  match x with Fin _ => true | _ => false end.

Definition Qneg_b (q : Q) : bool := negb (Qle_bool 0 q).

Definition fopp (x : float) : float :=
  match x with
  | Fin q => Fin (- q)
  | PInf => NInf
  | NInf => PInf
  | NaN => NaN
  end.

Definition fadd (x y : float) : float :=
  match x, y with
  | NaN, _ | _, NaN => NaN
  | PInf, NInf | NInf, PInf => NaN
  | PInf, _ | _, PInf => PInf
  | NInf, _ | _, NInf => NInf
  | Fin a, Fin b => Fin (a + b)
  end.

Definition fsub (x y : float) : float := fadd x (fopp y).

(** An infinity of the sign of [q] times [inf]; [q] is not zero. *)
Definition signed_inf (inf : float) (q : Q) : float :=
  if Qneg_b q then fopp inf else inf.

Definition fmul (x y : float) : float :=
  match x, y with
  | NaN, _ | _, NaN => NaN
  | Fin a, Fin b => Fin (a * b)
  | Fin a, inf | inf, Fin a =>
      if Qeq_bool a 0 then NaN else signed_inf inf a
  | PInf, PInf | NInf, NInf => PInf
  | PInf, NInf | NInf, PInf => NInf
  end.

Definition fdiv (x y : float) : float :=
  match x, y with
  | NaN, _ | _, NaN => NaN
  | Fin a, Fin b =>
      if Qeq_bool b 0 then
        if Qeq_bool a 0 then NaN else signed_inf PInf a
      else Fin (a / b)
  | Fin _, _ => Fin 0
  | inf, Fin b => signed_inf inf b
  | _, _ => NaN
  end.

Fixpoint fsum (l : list float) : float :=
  match l with
  | [] => Fin 0
  | x :: l' => fadd x (fsum l')
  end.

(** The numbers among the values of [l]. *)
Fixpoint finite_values (l : list float) : list Q :=
  match l with
  | [] => []
  | Fin q :: l' => q :: finite_values l'
  | _ :: l' => finite_values l'
  end.

(** [Series.pct_change()]: pandas computes [s / s.shift(1) - 1]; the first
    element has no predecessor and is not-a-number. *)
Fixpoint pct_steps (prev : Q) (l : list Q) : list float :=
  match l with
  | [] => []
  | v :: l' => fsub (fdiv (Fin v) (Fin prev)) (Fin 1) :: pct_steps v l'
  end.

Definition pct_change (s : list Q) : list float :=
  match s with
  | [] => []
  | v0 :: l => NaN :: pct_steps v0 l
  end.

(** [Series.mean()], with the default [skipna=True]: the not-a-numbers are
    left out, the infinities are not; an empty selection gives
    not-a-number. *)
Definition notna (l : list float) : list float :=
  filter (fun x => negb (is_nan x)) l.

Definition mean (l : list float) : float :=
  match notna l with
  | [] => NaN
  | xs => fdiv (fsum xs) (Fin (inject_Z (Z.of_nat (List.length xs))))
  end.

(** ** The monthly pivot

    [groupby(["mes", "tipo_norm"])["valor"].sum().unstack(fill_value=0)]:
    one row per month present, in chronological order, one column per kind
    present, a missing combination filled with zero. *)

Record MonthRow : Type := mk_monthrow {
  mr_mes : Z;
  mr_tipo_norm : string;
  mr_valor : Q
}.

Record Pivot : Type := mk_pivot {
  pv_index : list Z;
  pv_columns : list (string * list Q)
}.

Definition group_sum (rows : list MonthRow) (m : Z) (k : string) : Q :=
  qsum (map mr_valor
         (filter (fun r => (mr_mes r =? m)%Z && String.eqb (mr_tipo_norm r) k)
                 rows)).

Definition groupby_sum_unstack (rows : list MonthRow) : Pivot :=
  let idx := sort_uniq Z.leb Z.eq_dec (map mr_mes rows) in
  let cols := sort_uniq String.leb string_dec (map mr_tipo_norm rows) in
  {| pv_index := idx;
     pv_columns :=
       map (fun k => (k, map (fun m => group_sum rows m k) idx)) cols |}.

(** [monthly[k]], when [k in monthly.columns]. *)
Fixpoint column (k : string) (cols : list (string * list Q))
  : option (list Q) :=
  match cols with
  | [] => None
  | (k', s) :: cols' => if String.eqb k' k then Some s else column k cols'
  end.

(** [len(monthly)] *)
Definition pv_len (pv : Pivot) : Z := Z.of_nat (List.length (pv_index pv)).

(** [monthly.empty]: some axis has no element. *)
Definition pv_empty (pv : Pivot) : bool :=
  df_empty (pv_index pv) || df_empty (pv_columns pv).

(** What [monthly.get(k, 0)] evaluates to: the column, or the integer. *)
Inductive PyVal : Type :=
| Scalar (q : Q)
| Series (s : list Q).

Definition pv_get (k : string) (pv : Pivot) (default : Q) : PyVal :=
  match column k (pv_columns pv) with
  | Some s => Series s
  | None => Scalar default
  end.

(** [a - b] on those values; two columns of one frame share their index. *)
Definition py_sub (a b : PyVal) : PyVal :=
  match a, b with
  | Scalar x, Scalar y => Scalar (x - y)
  | Scalar x, Series s => Series (map (fun v => x - v) s)
  | Series s, Scalar y => Series (map (fun v => v - y) s)
  | Series s, Series t => Series (map (fun p => fst p - snd p) (combine s t))
  end.

(** Exceptions the modelled code can raise. *)
Inductive exn : Type :=
| TypeError
| KeyError.

Inductive result (A : Type) : Type :=
| Ok (a : A)
| Raise (e : exn).
Arguments Ok {A} a.
Arguments Raise {A} e.

Definition bind (A B : Type) (r : result A) (k : A -> result B) : result B :=
  match r with
  | Ok a => k a
  | Raise e => Raise e
  end.

Notation "x <- r ;; k" := (bind r (fun x => k))
  (at level 61, r at next level, right associativity).

(** [len(v)]: an integer has no length. *)
Definition py_len (v : PyVal) : result Z :=
  match v with
  | Series s => Ok (Z.of_nat (List.length s))
  | Scalar _ => Raise TypeError
  end.

Record Trends : Type := mk_trends {
  trend_entradas : float;
  trend_saidas : float;
  trend_saldo : float
}.

(** ** KPIs *)

Record Kpis : Type := mk_kpis {
  entradas : Q;
  saidas : Q;
  saldo : Q;
  total_lancamentos : Z
}.

Section Analytics.

Context {RT : Runtime}.

(** [s.astype(str).str.strip().str.lower()] on one cell. *)
Definition tipo_norm (s : string) : string := str_lower (str_strip s).

(** [df.loc[df["tipo_norm"] == k, "valor"].sum()] *)
Definition sum_tipo (k : string) (df : DataFrame) : Q :=
  qsum (map valor (filter (fun r => String.eqb (tipo_norm (tipo r)) k) df)).

Definition calcular_kpis (df : DataFrame) : Kpis :=
  if df_empty df then
    {| entradas := 0; saidas := 0; saldo := 0; total_lancamentos := 0 |}
  else
    let entradas := sum_tipo "entrada" df in
    let saidas := sum_tipo "saída" df in
    let saldo := entradas - saidas in
    {| entradas := entradas; saidas := saidas; saldo := saldo;
       total_lancamentos := Z.of_nat (List.length df) |}.

(** *** [LancamentoManager.read_lancamentos] *)

(** One optional condition of the [WHERE] clause. *)
Definition cond (p : option string) (test : string -> bool) : bool :=
  match truthy p with
  | Some s => test s
  | None => true
  end.

(** Text is compared bytewise, as SQLite's default collation does. *)
Definition where_clause (filtros : option Filtros) (r : DbRow) : bool :=
  match filtros with
  | None => true
  | Some f =>
      cond (f_empresa f) (fun s => String.eqb (db_empresa r) s)
      && cond (f_data_inicio f) (fun s => String.leb s (db_data r))
      && cond (f_data_fim f) (fun s => String.leb (db_data r) s)
      && cond (f_tipo f) (fun s => String.eqb (db_tipo r) s)
  end.

(** [ORDER BY data DESC, id DESC] *)
Definition order_by (a b : DbRow) : bool :=
  String.ltb (db_data b) (db_data a)
  || (String.eqb (db_data a) (db_data b) && (db_id b <=? db_id a)%Z).

(** [pd.to_numeric(cell, errors="coerce")] *)
Definition to_numeric (v : sql_value) : option Q :=
  match v with
  | SqlReal q => Some q
  | SqlInt z => Some (inject_Z z)
  | SqlText s => parse_numeric s
  end.

Definition fillna (d : Q) (o : option Q) : Q :=
  match o with
  | Some q => q
  | None => d
  end.

Definition coerce_row (r : DbRow) : Lancamento :=
  {| id := db_id r; data := db_data r; empresa := db_empresa r;
     descricao := db_descricao r; categoria := db_categoria r;
     tipo := db_tipo r; valor := fillna 0 (to_numeric (db_valor r));
     observacoes := db_observacoes r; created_at := db_created_at r;
     updated_at := db_updated_at r |}.

Definition read_lancamentos (table : list DbRow) (filtros : option Filtros)
  : DataFrame :=
  let df := isort order_by (filter (where_clause filtros) table) in
  if df_empty df then [] else map coerce_row df.

(** *** [AnalyticsEngine.calcular_trends] *)

(** [df["data_dt"] = pd.to_datetime(df["data"], errors="coerce")] followed
    by [dropna(subset=["data_dt"])]: the rows whose date parses, with the
    parsed date. *)
Fixpoint dropna_data_dt (df : DataFrame) : list (Lancamento * datetime) :=
  match df with
  | [] => []
  | r :: df' =>
      match to_datetime (data r) with
      | Some t => (r, t) :: dropna_data_dt df'
      | None => dropna_data_dt df'
      end
  end.

(** The columns [mes], [tipo_norm] and [valor] of a row; [norm] is the
    normalisation of [tipo] that the caller applies. *)
Definition month_row (norm : string -> string) (p : Lancamento * datetime)
  : MonthRow :=
  {| mr_mes := to_period_M (snd p);
     mr_tipo_norm := norm (tipo (fst p));
     mr_valor := valor (fst p) |}.

(** [s.pct_change().mean() * 100] *)
Definition trend_of (s : list Q) : float :=
  fmul (mean (pct_change s)) (Fin 100).

(** [v.pct_change().mean() * 100] where [v] passed [len(v) >= 2]. *)
Definition trend_of_val (v : PyVal) : float :=
  match v with
  | Series s => trend_of s
  | Scalar _ => Fin 0
  end.

Definition zero_trends : Trends :=
  {| trend_entradas := Fin 0; trend_saidas := Fin 0; trend_saldo := Fin 0 |}.

(** The trends of a pivot that is not empty: the second half of
    [calcular_trends]. *)
Definition trends_of_monthly (monthly : Pivot) : result Trends :=
  let trend_entradas :=
    match column "entrada" (pv_columns monthly) with
    | Some s => if (2 <=? pv_len monthly)%Z then trend_of s else Fin 0
    | None => Fin 0
    end in
  let trend_saidas :=
    match column "saída" (pv_columns monthly) with
    | Some s => if (2 <=? pv_len monthly)%Z then trend_of s else Fin 0
    | None => Fin 0
    end in
  let saldo_mensal :=
    py_sub (pv_get "entrada" monthly 0) (pv_get "saída" monthly 0) in
  n <- py_len saldo_mensal ;;
  let trend_saldo :=
    if (2 <=? n)%Z then trend_of_val saldo_mensal else Fin 0 in
  Ok {| trend_entradas := trend_entradas;
        trend_saidas := trend_saidas;
        trend_saldo := trend_saldo |}.

(** The rows of the trailing window, with their parsed date. *)
Definition janela (now : datetime) (periodo : Z) (df : DataFrame)
  : list (Lancamento * datetime) :=
  let df_trend := dropna_data_dt df in
  let data_corte := minus_days now (periodo * 30) in
  filter (fun p => (data_corte <=? instant (snd p))%Z) df_trend.

(** [now] is the value of [datetime.now()] during the call. *)
Definition calcular_trends (now : datetime) (df : DataFrame) (periodo : Z)
  : result Trends :=
  if df_empty df then Ok zero_trends
  else
    let df_trend := janela now periodo df in
    if df_empty df_trend then Ok zero_trends
    else
      trends_of_monthly
        (groupby_sum_unstack (map (month_row tipo_norm) df_trend)).

(** *** The variation of [page_comparativo] *)

Definition calc_variation (val1 val2 : Q) : Q :=
  if Qeq_bool val1 0 then
    if Qeq_bool val2 0 then 0 else 100
  else ((val2 - val1) / val1) * 100.

Record Variacoes : Type := mk_variacoes {
  var_entradas : Q;
  var_saidas : Q;
  var_saldo : Q;
  var_lanc : Q
}.

(** The four variations the page shows for the KPIs of two periods. *)
Definition page_comparativo (kpis1 kpis2 : Kpis) : Variacoes :=
  {| var_entradas := calc_variation (entradas kpis1) (entradas kpis2);
     var_saidas := calc_variation (saidas kpis1) (saidas kpis2);
     var_saldo := calc_variation (saldo kpis1) (saldo kpis2);
     var_lanc := calc_variation (inject_Z (total_lancamentos kpis1))
                                (inject_Z (total_lancamentos kpis2)) |}.

(** *** The projection of [page_previsoes] *)

(** [np.arange(n)] *)
Definition arange (n : nat) : list Q :=
  map (fun i => inject_Z (Z.of_nat i)) (seq 0 n).

Definition qlen (A : Type) (l : list A) : Q :=
  inject_Z (Z.of_nat (List.length l)).

Definition dot (x y : list Q) : Q :=
  qsum (map (fun p => fst p * snd p) (combine x y)).

(** [np.polyfit(x, y, 1)]: the coefficients [(slope, intercept)] of the
    least-squares line through the points, by the normal equations. *)
Definition polyfit1 (x y : list Q) : Q * Q :=
  let n := qlen x in
  let sx := qsum x in
  let sy := qsum y in
  let slope := (n * dot x y - sx * sy) / (n * dot x x - sx * sx) in
  (slope, (sy - slope * sx) / n).

(** [np.nanmean] of an array of numbers. *)
Definition nanmean (y : list Q) : Q := qsum y / qlen y.

(** [_fit]: [x] is the enclosing [np.arange(len(monthly_hist))].  Every
    entry of the array is a number, so [np.any(np.isfinite(y_arr))] holds as
    soon as the array is not empty. *)
Definition _fit (x y : list Q) : Q * Q :=
  if (2 <=? Z.of_nat (List.length y))%Z && negb (df_empty y) then
    polyfit1 x y
  else
    (0, if df_empty y then 0 else nanmean y).

(** [max(0, v)] *)
Definition max0 (v : Q) : Q := if Qle_bool v 0 then 0 else v.

(** [monthly_hist.index.max()], of an index that is not empty. *)
Definition index_max (idx : list Z) : Z :=
  match idx with
  | [] => 0%Z
  | m :: idx' => fold_left Z.max idx' m
  end.

Record Projecao : Type := mk_projecao {
  mes : Z;
  entradas_proj : Q;
  saidas_proj : Q;
  saldo_proj : Q
}.

(** What the page does with its history: one of the two warnings, each
    followed by [return], or the list [projecoes]. *)
Inductive Previsao : Type :=
| SemDados           (* "Não há dados suficientes para fazer projeções" *)
| SemDadosMensais    (* "Não há dados mensais suficientes para projeção" *)
| Projecoes (projecoes : list Projecao).

(** [range(1, n + 1)] *)
Definition range1 (n : Z) : list Z :=
  map (fun i => Z.of_nat i) (seq 1 (Z.to_nat n)).

Definition fit_column (k : string) (monthly_hist : Pivot) : Q * Q :=
  match column k (pv_columns monthly_hist) with
  | Some y => _fit (arange (List.length (pv_index monthly_hist))) y
  | None => (0, 0)
  end.

Definition projetar (monthly_hist : Pivot) (meses_projecao : Z)
  : list Projecao :=
  let '(slope_ent, intercept_ent) := fit_column "entrada" monthly_hist in
  let '(slope_sai, intercept_sai) := fit_column "saída" monthly_hist in
  let last_month := index_max (pv_index monthly_hist) in
  map (fun i =>
         let next_month := (last_month + i)%Z in
         let at_ := inject_Z (pv_len monthly_hist + i - 1) in
         let ent_proj := max0 (intercept_ent + slope_ent * at_) in
         let sai_proj := max0 (intercept_sai + slope_sai * at_) in
         {| mes := next_month;
            entradas_proj := ent_proj;
            saidas_proj := sai_proj;
            saldo_proj := ent_proj - sai_proj |})
      (range1 meses_projecao).

(** [df_historico] is what [read_lancamentos] returned for the window. *)
Definition page_previsoes (df_historico : DataFrame) (meses_projecao : Z)
  : Previsao :=
  if df_empty df_historico then SemDados
  else
    let df_hist := dropna_data_dt df_historico in
    let monthly_hist :=
      groupby_sum_unstack (map (month_row str_lower) df_hist) in
    if pv_empty monthly_hist then SemDadosMensais
    else Projecoes (projetar monthly_hist meses_projecao).

End Analytics.

(** ** A runtime to evaluate with

    An instance of [Runtime] for running the definitions on concrete rows.
    It agrees with Python and pandas on the texts used below: dates written
    [YYYY-MM-DD], decimal numerals, ASCII white space, and letters of ASCII
    and Latin-1 in UTF-8. *)

Module PyRuntime.

Definition digit (c : ascii) : option Z :=
  let n := Z.of_nat (nat_of_ascii c) in
  if ((48 <=? n) && (n <=? 57))%Z then Some (n - 48)%Z else None.

(** The number written by a string of decimal digits, after [acc]. *)
Fixpoint digits (acc : Z) (s : string) : option Z :=
  match s with
  | EmptyString => Some acc
  | String c s' =>
      match digit c with
      | Some d => digits (acc * 10 + d)%Z s'
      | None => None
      end
  end.

Definition number (s : string) : option Z :=
  match s with
  | EmptyString => None
  | _ => digits 0 s
  end.

Definition is_leap (y : Z) : bool :=
  ((y mod 4 =? 0) && (negb (y mod 100 =? 0) || (y mod 400 =? 0)))%Z.

Definition days_in_month (y m : Z) : Z :=
  if (m =? 2)%Z then (if is_leap y then 29 else 28)%Z
  else if ((m =? 4) || (m =? 6) || (m =? 9) || (m =? 11))%Z then 30%Z
  else 31%Z.

(** A date [YYYY-MM-DD], at midnight. *)
Definition iso_date (s : string) : option datetime :=
  if negb (Nat.eqb (String.length s) 10) then None
  else if negb (String.eqb (substring 4 1 s) "-"
                && String.eqb (substring 7 1 s) "-") then None
  else
    match number (substring 0 4 s), number (substring 5 2 s),
          number (substring 8 2 s) with
    | Some y, Some m, Some d =>
        if ((1 <=? m) && (m <=? 12) && (1 <=? d)
            && (d <=? days_in_month y m))%Z
        then Some (mk_datetime y m d 0)
        else None
    | _, _, _ => None
    end.

(** A numeral: an optional sign, digits, and an optional fraction. *)
Definition unsigned_decimal (s : string) : option Q :=
  match index 0 "." s with
  | None => option_map inject_Z (number s)
  | Some i =>
      let frac :=
        substring (S i) (String.length s - S i) s in
      match number (substring 0 i s), number frac with
      | Some a, Some b =>
          Some (inject_Z a
                + inject_Z b / inject_Z (10 ^ Z.of_nat (String.length frac)))
      | _, _ => None
      end
  end.

Definition decimal (s : string) : option Q :=
  match s with
  | String "-" s' => option_map Qopp (unsigned_decimal s')
  | _ => unsigned_decimal s
  end.

Definition is_space (c : ascii) : bool :=
  let n := nat_of_ascii c in
  ((9 <=? n) && (n <=? 13) || (28 <=? n) && (n <=? 32))%nat.

Fixpoint lstrip (s : list ascii) : list ascii :=
  match s with
  | c :: s' => if is_space c then lstrip s' else s
  | [] => []
  end.

Definition strip (s : string) : string :=
  string_of_list_ascii
    (rev (lstrip (rev (lstrip (list_ascii_of_string s))))).

(** Lower case: [A]..[Z], and the capital letters of Latin-1, which UTF-8
    writes as the byte 195 followed by a byte from 128 to 158 (but 151,
    the multiplication sign). *)
Fixpoint lower (s : string) : string :=
  match s with
  | EmptyString => EmptyString
  | String c s' =>
      let n := nat_of_ascii c in
      if ((65 <=? n) && (n <=? 90))%nat then
        String (ascii_of_nat (n + 32)) (lower s')
      else if (n =? 195)%nat then
        match s' with
        | String c2 s'' =>
            let n2 := nat_of_ascii c2 in
            if ((128 <=? n2) && (n2 <=? 158) && negb (n2 =? 151))%nat then
              String c (String (ascii_of_nat (n2 + 32)) (lower s''))
            else String c (String c2 (lower s''))
        | EmptyString => String c EmptyString
        end
      else String c (lower s')
  end.

#[export] Instance runtime : Runtime :=
  {| to_datetime := iso_date;
     parse_numeric := decimal;
     str_strip := strip;
     str_lower := lower |}.

End PyRuntime.

(** Rows for the examples: the columns the analytics read, the others
    empty. *)
Definition lanc (i : Z) (d : string) (t : string) (v : Q) : Lancamento :=
  {| id := i; data := d; empresa := "Acme"; descricao := "";
     categoria := ""; tipo := t; valor := v; observacoes := "";
     created_at := ""; updated_at := "" |}.

Definition dbrow (i : Z) (d : string) (t : string) (v : sql_value) : DbRow :=
  {| db_id := i; db_data := d; db_empresa := "Acme"; db_descricao := "";
     db_categoria := ""; db_tipo := t; db_valor := v; db_observacoes := "";
     db_created_at := ""; db_updated_at := "" |}.


(** The ledger of the specification's scenario. *)
Definition acme : DataFrame :=
  [lanc 4 "2024-02-15" "Saída" 500;
   lanc 3 "2024-02-10" "Entrada" 1100;
   lanc 2 "2024-01-20" "Saída" 400;
   lanc 1 "2024-01-05" "Entrada" 1000].

(** ** The methods as programs over a store

    The two methods of [AnalyticsEngine] written as the source writes them:
    DataFrames are objects in a store, reached by reference; [df.copy()],
    [dropna] and a boolean selection allocate a new frame, an assignment
    [df[col] = ...] updates the frame it is applied to in place.  The store
    also holds the attribute [manager] of the engine object. *)

Module Store.

(** A row of a frame: the stored columns, and the cells of the columns
    that the methods add ([None]: the column is not there). *)
Record Row : Type := mk_row {
  base : Lancamento;
  data_dt : option (option datetime);
  mes_c : option Z;
  tipo_norm_c : option string
}.

Definition Frame : Type := list Row.

Definition ref : Type := nat.

Record State : Type := mk_state {
  frames : list Frame;
  manager : string
}.

Inductive outcome (A : Type) : Type :=
| Done (a : A) (s : State)
| Raised (e : exn) (s : State)
| Stuck.
Arguments Done {A} a s.
Arguments Raised {A} e s.
Arguments Stuck {A}.

Definition M (A : Type) : Type := State -> outcome A.

Definition ret (A : Type) (a : A) : M A := fun s => Done a s.

Definition bindM (A B : Type) (m : M A) (k : A -> M B) : M B :=
  fun s =>
    match m s with
    | Done a s' => k a s'
    | Raised e s' => Raised e s'
    | Stuck => Stuck
    end.

Definition lift (A : Type) (r : result A) : M A :=
  fun s =>
    match r with
    | Ok a => Done a s
    | Raise e => Raised e s
    end.

Notation "x <-- m ;; k" := (bindM m (fun x => k))
  (at level 61, m at next level, right associativity).

Definition load (r : ref) : M Frame :=
  fun s =>
    match nth_error (frames s) r with
    | Some f => Done f s
    | None => Stuck
    end.

Definition alloc (f : Frame) : M ref :=
  fun s =>
    Done (List.length (frames s))
         {| frames := frames s ++ [f]; manager := manager s |}.

Fixpoint update (A : Type) (l : list A) (n : nat) (g : A -> A) : list A :=
  match l, n with
  | [], _ => []
  | x :: l', O => g x :: l'
  | x :: l', S n' => x :: update l' n' g
  end.

Definition modify (r : ref) (g : Frame -> Frame) : M unit :=
  fun s =>
    match nth_error (frames s) r with
    | Some _ =>
        Done tt {| frames := update (frames s) r g; manager := manager s |}
    | None => Stuck
    end.

(** The frame [df] is wrapped in when it enters the store. *)
Definition frame_of (df : DataFrame) : Frame :=
  map (fun r => {| base := r; data_dt := None; mes_c := None;
                   tipo_norm_c := None |}) df.

Definition rows_of (f : Frame) : DataFrame := map base f.

Section Methods.

Context {RT : Runtime}.

(** [df.copy()] *)
Definition copy (df : ref) : M ref := f <-- load df ;; alloc f.

(** [df["tipo_norm"] = df["tipo"].astype(str).str.strip().str.lower()] *)
Definition set_tipo_norm (df : ref) : M unit :=
  modify df (map (fun row =>
    {| base := base row; data_dt := data_dt row; mes_c := mes_c row;
       tipo_norm_c := Some (tipo_norm (tipo (base row))) |})).

(** [df["data_dt"] = pd.to_datetime(df["data"], errors="coerce")] *)
Definition set_data_dt (df : ref) : M unit :=
  modify df (map (fun row =>
    {| base := base row; data_dt := Some (to_datetime (data (base row)));
       mes_c := mes_c row; tipo_norm_c := tipo_norm_c row |})).

(** One cell of a column: [KeyError] when the column is not there. *)
Definition cell (A : Type) (c : option A) : result A :=
  match c with
  | Some a => Ok a
  | None => Raise KeyError
  end.

(** The rows of [f] that [keep] selects, where [keep] reads cells. *)
Fixpoint select (keep : Row -> result bool) (f : Frame) : result Frame :=
  match f with
  | [] => Ok []
  | row :: f' =>
      b <- keep row ;;
      rest <- select keep f' ;;
      Ok (if b then row :: rest else rest)
  end.

(** [df.dropna(subset=["data_dt"])] *)
Definition dropna (df : ref) : M ref :=
  f <-- load df ;;
  g <-- lift (select (fun row =>
                t <- cell (data_dt row) ;;
                Ok (match t with Some _ => true | None => false end)) f) ;;
  alloc g.

(** [df[df["data_dt"] >= data_corte]]; a missing date compares false. *)
Definition select_since (df : ref) (data_corte : Z) : M ref :=
  f <-- load df ;;
  g <-- lift (select (fun row =>
                t <- cell (data_dt row) ;;
                Ok (match t with
                    | Some t => (data_corte <=? instant t)%Z
                    | None => false
                    end)) f) ;;
  alloc g.

(** [df["mes"] = df["data_dt"].dt.to_period("M")] *)
Definition set_mes (df : ref) : M unit :=
  f <-- load df ;;
  _ <-- lift (select (fun row => t <- cell (data_dt row) ;; Ok true) f) ;;
  modify df (map (fun row =>
    {| base := base row; data_dt := data_dt row;
       mes_c := match data_dt row with
                | Some (Some t) => Some (to_period_M t)
                | _ => None
                end;
       tipo_norm_c := tipo_norm_c row |})).

(** [df.loc[df["tipo_norm"] == k, "valor"].sum()] *)
Fixpoint sum_where (k : string) (f : Frame) : result Q :=
  match f with
  | [] => Ok 0
  | row :: f' =>
      t <- cell (tipo_norm_c row) ;;
      rest <- sum_where k f' ;;
      Ok (if String.eqb t k then valor (base row) + rest else rest)
  end.

(** The columns that [groupby(["mes", "tipo_norm"])["valor"]] reads. *)
Fixpoint month_rows (f : Frame) : result (list MonthRow) :=
  match f with
  | [] => Ok []
  | row :: f' =>
      m <- cell (mes_c row) ;;
      t <- cell (tipo_norm_c row) ;;
      rest <- month_rows f' ;;
      Ok ({| mr_mes := m; mr_tipo_norm := t;
             mr_valor := valor (base row) |} :: rest)
  end.

Definition calcular_kpis (df : ref) : M Kpis :=
  f <-- load df ;;
  if df_empty f then
    ret {| entradas := 0; saidas := 0; saldo := 0; total_lancamentos := 0 |}
  else
    df_clean <-- copy df ;;
    _ <-- set_tipo_norm df_clean ;;
    fc <-- load df_clean ;;
    entradas <-- lift (sum_where "entrada" fc) ;;
    saidas <-- lift (sum_where "saída" fc) ;;
    let saldo := entradas - saidas in
    ret {| entradas := entradas; saidas := saidas; saldo := saldo;
           total_lancamentos := Z.of_nat (List.length fc) |}.

Definition calcular_trends (now : datetime) (df : ref) (periodo : Z)
  : M Trends :=
  f <-- load df ;;
  if df_empty f then ret zero_trends
  else
    df_trend <-- copy df ;;
    _ <-- set_data_dt df_trend ;;
    df_trend <-- dropna df_trend ;;
    let data_corte := minus_days now (periodo * 30) in
    df_trend <-- select_since df_trend data_corte ;;
    ft <-- load df_trend ;;
    if df_empty ft then ret zero_trends
    else
      _ <-- set_mes df_trend ;;
      _ <-- set_tipo_norm df_trend ;;
      ft <-- load df_trend ;;
      rows <-- lift (month_rows ft) ;;
      lift (trends_of_monthly (groupby_sum_unstack rows)).

End Methods.

End Store.

(** The frames along a call of [Store.calcular_trends]: the row updates of
    the three assignments, the two selections, and the frame that is
    grouped. *)

Section StoreFrames.

Context {RT : Runtime}.

Definition with_tipo_norm (row : Store.Row) : Store.Row :=
  {| Store.base := Store.base row; Store.data_dt := Store.data_dt row;
     Store.mes_c := Store.mes_c row;
     Store.tipo_norm_c := Some (tipo_norm (tipo (Store.base row))) |}.

Definition with_data_dt (row : Store.Row) : Store.Row :=
  {| Store.base := Store.base row;
     Store.data_dt := Some (to_datetime (data (Store.base row)));
     Store.mes_c := Store.mes_c row;
     Store.tipo_norm_c := Store.tipo_norm_c row |}.

Definition with_mes (row : Store.Row) : Store.Row :=
  {| Store.base := Store.base row; Store.data_dt := Store.data_dt row;
     Store.mes_c := match Store.data_dt row with
                    | Some (Some t) => Some (to_period_M t)
                    | _ => None
                    end;
     Store.tipo_norm_c := Store.tipo_norm_c row |}.

Definition has_date (row : Store.Row) : bool :=
  match Store.data_dt row with
  | Some (Some _) => true
  | _ => false
  end.

Definition since (data_corte : Z) (row : Store.Row) : bool :=
  match Store.data_dt row with
  | Some (Some t) => (data_corte <=? instant t)%Z
  | _ => false
  end.

(** The frame that [calcular_trends] groups, from the frame it is given. *)
Definition trend_frame (data_corte : Z) (f : Store.Frame) : Store.Frame :=
  filter (since data_corte) (filter has_date (map with_data_dt f)).

End StoreFrames.

(** What a call leaves as it was: the attribute of the engine and every
    frame that the store held before the call. *)
Definition preserved (s s' : Store.State) : Prop :=
  Store.manager s' = Store.manager s
  /\ forall (r : Store.ref) (f : Store.Frame),
      nth_error (Store.frames s) r = Some f ->
      nth_error (Store.frames s') r = Some f.

(** ** The specification's wording

    Definitions that follow the words of the specification, to compare the
    code with. *)

Section SpecWording.

Context {RT : Runtime}.

(** The total of a kind, as the specification words it: the sum of the
    amounts of the entries whose normalised kind is [k]. *)
Fixpoint spec_total (k : string) (df : DataFrame) : Q :=
  match df with
  | [] => 0
  | r :: df' =>
      if String.eqb (str_lower (str_strip (tipo r))) k
      then valor r + spec_total k df'
      else spec_total k df'
  end.

(** The variation [v] of a metric from [a] to [b]: [(b - a) / a * 100],
    but from a zero base 0 when [b] is zero too and 100 otherwise. *)
Definition variation_rule (a b v : Q) : Prop :=
  (~ a == 0 -> v == (b - a) / a * 100)
  /\ (a == 0 -> b == 0 -> v == 0)
  /\ (a == 0 -> ~ b == 0 -> v == 100).

(** No date of the collection parses. *)
Definition no_parseable_date (df : DataFrame) : Prop :=
  forall r, In r df -> to_datetime (data r) = None.

(** The page stopped with a warning and projected nothing. *)
Definition insufficient_data (p : Previsao) : Prop :=
  match p with
  | SemDados | SemDadosMensais => True
  | Projecoes _ => False
  end.

(** The total of a kind over all the buckets of a pivot; a kind without a
    column counts as zero. *)
Definition bucket_total (k : string) (pv : Pivot) : Q :=
  match column k (pv_columns pv) with
  | Some s => qsum s
  | None => 0
  end.

(** The squared error of the line [value = a * index + b] on the points
    [(x, y)]. *)
Definition sse (x y : list Q) (a b : Q) : Q :=
  qsum (map (fun p => (snd p - (a * fst p + b)) * (snd p - (a * fst p + b)))
            (combine x y)).

(** The residual of the point [p] on the line [value = s * index + c]. *)
Definition residual (s c : Q) (p : Q * Q) : Q := snd p - (s * fst p + c).

(** [(slope, intercept)] is an ordinary least-squares line of the points:
    no line has a smaller squared error. *)
Definition least_squares_line (x y : list Q) (slope intercept : Q) : Prop :=
  forall a b : Q, sse x y slope intercept <= sse x y a b.

(** The line of a kind over a monthly history: a least-squares line over
    the zero-based bucket index when the series of the kind has two points
    or more; flat at the mean of the series when it has fewer; flat at zero
    when the history has no series of the kind. *)
Definition fitted (k : string) (monthly : Pivot) (slope intercept : Q)
  : Prop :=
  match column k (pv_columns monthly) with
  | Some y =>
      if (2 <=? List.length y)%nat then
        least_squares_line (arange (List.length (pv_index monthly))) y
                           slope intercept
      else
        slope = 0 /\ intercept = qsum y / qlen y
  | None => slope = 0 /\ intercept = 0
  end.

(** The month-over-month changes [(v[i] - v[i-1]) / v[i-1]] of a series
    whose first value is [prev], and the trend of the series: their mean,
    as a percentage. *)
Fixpoint spec_steps (prev : Q) (l : list Q) : list Q :=
  match l with
  | [] => []
  | v :: l' => (v - prev) / prev :: spec_steps v l'
  end.

Definition spec_trend (s : list Q) : Q :=
  match s with
  | [] => 0
  | v0 :: l => qsum (spec_steps v0 l) / qlen l * 100
  end.

(** Every value of the series that has a successor is not zero. *)
Fixpoint priors_nonzero_from (prev : Q) (l : list Q) : Prop :=
  match l with
  | [] => True
  | v :: l' => ~ prev == 0 /\ priors_nonzero_from v l'
  end.

Definition priors_nonzero (s : list Q) : Prop :=
  match s with
  | [] => True
  | v0 :: l => priors_nonzero_from v0 l
  end.

(** No zero value of the series is followed by a value that is not zero;
    some value of the series that has a successor is not zero. *)
Fixpoint no_step_from_zero (prev : Q) (l : list Q) : Prop :=
  match l with
  | [] => True
  | v :: l' => (prev == 0 -> v == 0) /\ no_step_from_zero v l'
  end.

Fixpoint some_prior_nonzero (prev : Q) (l : list Q) : Prop :=
  match l with
  | [] => False
  | v :: l' => ~ prev == 0 \/ some_prior_nonzero v l'
  end.

(** The series for which a finite trend is reported: those of fewer than
    two months, whose trend is reported as 0, and those whose changes are
    all numbers or 0/0, with a number among them. *)
Definition finite_series (s : list Q) : Prop :=
  match s with
  | [] => True
  | v0 :: l =>
      (List.length s < 2)%nat
      \/ (no_step_from_zero v0 l /\ some_prior_nonzero v0 l)
  end.

(** The series steps from a zero value to a value that is not zero. *)
Definition zero_prior_step (s : list Q) : Prop :=
  exists l1 a b l2, s = l1 ++ a :: b :: l2 /\ a == 0 /\ ~ b == 0.

(** Some row of the window is of one of the two kinds. *)
Definition some_known_kind (w : list (Lancamento * datetime)) : Prop :=
  exists p, In p w
            /\ (str_lower (str_strip (tipo (fst p))) = "entrada"%string
                \/ str_lower (str_strip (tipo (fst p))) = "saída"%string).

(** The monthly series of a kind ([[]] when the kind is absent) and the
    monthly series of the balance, inflow minus outflow month by month. *)
Definition series_of (k : string) (monthly : Pivot) : list Q :=
  match column k (pv_columns monthly) with
  | Some s => s
  | None => []
  end.

Definition saldo_series (monthly : Pivot) : list Q :=
  match py_sub (pv_get "entrada" monthly 0) (pv_get "saída" monthly 0) with
  | Series s => s
  | Scalar _ => []
  end.

(** No row of the window is of one of the two kinds. *)
Definition no_known_kind (w : list (Lancamento * datetime)) : Prop :=
  forall p, In p w ->
            str_lower (str_strip (tipo (fst p))) <> "entrada"%string
            /\ str_lower (str_strip (tipo (fst p))) <> "saída"%string.

Definition finite_trends (t : Trends) : Prop :=
  is_finite (trend_entradas t) = true
  /\ is_finite (trend_saidas t) = true
  /\ is_finite (trend_saldo t) = true.

End SpecWording.

(** * The rest of the module

    The writers of [LancamentoManager], the helpers and the parts of the
    pages that compute something. *)

(** ** The table and its writers *)

(** The table [lancamentos], with the counter that SQLite keeps for
    [id INTEGER PRIMARY KEY AUTOINCREMENT]: the largest id the table ever
    held. *)
Record Db : Type := mk_db {
  lancamentos : list DbRow;
  sqlite_sequence : Z
}.

(** [dados]: the keys of the dictionary that the writers read; a key that is
    absent is [None].  The callers give texts, and a number for [valor]. *)
Record Dados : Type := mk_dados {
  d_data : option string;
  d_empresa : option string;
  d_descricao : option string;
  d_categoria : option string;
  d_tipo : option string;
  d_valor : option Q;
  d_observacoes : option string
}.

(** [dados.get(key, default)] *)
Definition dict_get (A : Type) (o : option A) (default : A) : A :=
  match o with
  | Some a => a
  | None => default
  end.

Definition max_id (rows : list DbRow) : Z :=
  fold_right (fun r m => Z.max (db_id r) m) 0%Z rows.

(** The id of the next row: one more than the largest id the table holds or
    ever held. *)
Definition next_id (db : Db) : Z :=
  (Z.max (max_id (lancamentos db)) (sqlite_sequence db) + 1)%Z.

(** [insert_lancamento]: [now] is [datetime.now().isoformat(...)].  The
    columns [data] and [empresa] are [NOT NULL]: without one of them the
    statement fails, the exception is caught and the method returns
    [False]. *)
Definition insert_lancamento (now : string) (dados : Dados) (db : Db)
  : bool * Db :=
  match d_data dados, d_empresa dados with
  | Some data, Some empresa =>
      let row :=
        {| db_id := next_id db;
           db_data := data;
           db_empresa := empresa;
           db_descricao := dict_get (d_descricao dados) ""%string;
           db_categoria := dict_get (d_categoria dados) ""%string;
           db_tipo := dict_get (d_tipo dados) "Entrada"%string;
           db_valor := SqlReal (dict_get (d_valor dados) 0);
           db_observacoes := dict_get (d_observacoes dados) ""%string;
           db_created_at := now;
           db_updated_at := now |} in
      (true, {| lancamentos := lancamentos db ++ [row];
                sqlite_sequence := next_id db |})
  | _, _ => (false, db)
  end.

(** The row [r] after [UPDATE ... SET data=?, ..., updated_at=?]. *)
Definition updated_row (now data empresa : string) (dados : Dados)
           (r : DbRow) : DbRow :=
  {| db_id := db_id r;
     db_data := data;
     db_empresa := empresa;
     db_descricao := dict_get (d_descricao dados) ""%string;
     db_categoria := dict_get (d_categoria dados) ""%string;
     db_tipo := dict_get (d_tipo dados) "Entrada"%string;
     db_valor := SqlReal (dict_get (d_valor dados) 0);
     db_observacoes := dict_get (d_observacoes dados) ""%string;
     db_created_at := db_created_at r;
     db_updated_at := now |}.

(** [update_lancamento]: the constraints are checked on the rows that the
    statement updates, so an id that is not in the table makes no error. *)
Definition update_lancamento (now : string) (id_ : Z) (dados : Dados)
           (db : Db) : bool * Db :=
  if existsb (fun r => (db_id r =? id_)%Z) (lancamentos db) then
    match d_data dados, d_empresa dados with
    | Some data, Some empresa =>
        (true,
         {| lancamentos :=
              map (fun r => if (db_id r =? id_)%Z
                            then updated_row now data empresa dados r
                            else r)
                  (lancamentos db);
            sqlite_sequence := sqlite_sequence db |})
    | _, _ => (false, db)
    end
  else (true, db).

(** [delete_lancamento] *)
Definition delete_lancamento (id_ : Z) (db : Db) : bool * Db :=
  (true,
   {| lancamentos := filter (fun r => negb (db_id r =? id_)%Z)
                            (lancamentos db);
      sqlite_sequence := sqlite_sequence db |}).

(** A call of one of the writers. *)
Inductive Escrita : Type :=
| Insert (now : string) (dados : Dados)
| Update (now : string) (id_ : Z) (dados : Dados)
| Delete (id_ : Z).

Definition escrever (op : Escrita) (db : Db) : bool * Db :=
  match op with
  | Insert now dados => insert_lancamento now dados db
  | Update now id_ dados => update_lancamento now id_ dados db
  | Delete id_ => delete_lancamento id_ db
  end.

(** The table after a sequence of calls, whatever they return. *)
Fixpoint escrever_todas (ops : list Escrita) (db : Db) : Db :=
  match ops with
  | [] => db
  | op :: ops' => escrever_todas ops' (snd (escrever op db))
  end.

(** The ids of the table are distinct, and none is above the counter. *)
Definition db_ok (db : Db) : Prop :=
  NoDup (map db_id (lancamentos db))
  /\ forall r, In r (lancamentos db) -> (db_id r <= sqlite_sequence db)%Z.

(** The order of [ORDER BY data DESC, id DESC] on the rows read. *)
Definition data_id_desc (a b : Lancamento) : Prop :=
  String.ltb (data b) (data a) = true
  \/ (data a = data b /\ (id b <= id a)%Z).

(** The conditions that [filtros] puts on a row: a key that is absent or
    empty puts none. *)
Definition matches (filtros : option Filtros) (l : Lancamento) : Prop :=
  match filtros with
  | None => True
  | Some f =>
      (forall s, f_empresa f = Some s -> s <> ""%string -> empresa l = s)
      /\ (forall s, f_data_inicio f = Some s -> s <> ""%string ->
                    String.leb s (data l) = true)
      /\ (forall s, f_data_fim f = Some s -> s <> ""%string ->
                    String.leb (data l) s = true)
      /\ (forall s, f_tipo f = Some s -> s <> ""%string -> tipo l = s)
  end.

(** A key of [filtros] that puts no condition: absent, or empty. *)
Definition sem_condicao (o : option string) : Prop :=
  o = None \/ o = Some ""%string.



(** The table has a row of id [id_]. *)
Definition tem_id (id_ : Z) (db : Db) : Prop :=
  exists r, In r (lancamentos db) /\ db_id r = id_.


(** The row [l] shows the values that [update_lancamento] was given. *)
Definition atualizado (l : Lancamento) (now : string) (dados : Dados)
           (d e : string) : Prop :=
  data l = d /\ empresa l = e
  /\ descricao l = dict_get (d_descricao dados) ""%string
  /\ categoria l = dict_get (d_categoria dados) ""%string
  /\ tipo l = dict_get (d_tipo dados) "Entrada"%string
  /\ valor l = dict_get (d_valor dados) 0
  /\ observacoes l = dict_get (d_observacoes dados) ""%string
  /\ updated_at l = now.

(** ** [get_empresas_list] *)

Definition EMPRESAS_PADRAO : list string :=
  ["Gestão"; "Gestão Fundo de Propaganda"; "Effexus";
   "Effexus - utilizado para gestão"; "Indústria"; "Adriana"]%string.

(** [Series.unique()]: the distinct values, in order of appearance. *)
Fixpoint unique (l : list string) : list string :=
  match l with
  | [] => []
  | x :: l' => x :: filter (fun y => negb (String.eqb x y)) (unique l')
  end.

(** A text is true when it is not empty. *)
Definition str_true (s : string) : bool :=
  match s with
  | EmptyString => false
  | _ => true
  end.

Section Helpers.

Context {RT : Runtime}.

Definition get_empresas_list (df : DataFrame) : list string :=
  if df_empty df then EMPRESAS_PADRAO
  else
    let empresas :=
      isort String.leb
            (filter (fun e => str_true (str_strip e))
                    (unique (map empresa df))) in
    if df_empty empresas then EMPRESAS_PADRAO else empresas.

(** ** [prepare_monthly_data] of [page_comparativo] *)


End Helpers.





Section Comparativo.

Context {RT : Runtime}.


End Comparativo.

(** ** The summary of the projection in [page_previsoes] *)

(** [Series.cumsum()] *)
Fixpoint cumsum_from (acc : Q) (l : list Q) : list Q :=
  match l with
  | [] => []
  | x :: l' => (acc + x) :: cumsum_from (acc + x) l'
  end.

Definition cumsum (l : list Q) : list Q :=
  match l with
  | [] => []
  | x :: l' => x :: cumsum_from x l'
  end.

(** [a / b * 100 if b > 0 else 0] *)
Definition pct_if_positive (a b : Q) : Q :=
  if Qle_bool b 0 then 0 else a / b * 100.

(** The message of the recommendations. *)
Inductive Recomendacao : Type :=
| SaldoNegativo     (* "Saldo projetado negativo! Considere:" *)
| SaldoPositivo     (* "Projeção positiva! Oportunidades:" *)
| SemRecomendacao.

Record Resumo : Type := mk_resumo {
  total_ent_proj : Q;
  total_sai_proj : Q;
  saldo_total_proj : Q;
  roi_proj : Q;
  saldo_acumulado : list Q;
  recomendacao : Recomendacao;
  margem_seguranca : Q;
  margem_baixa : bool
}.

(** What the page computes from [projecoes] for its metrics, its table and
    its recommendations. *)
Definition resumo_projecoes (projecoes : list Projecao) : Resumo :=
  let total_ent_proj := qsum (map entradas_proj projecoes) in
  let total_sai_proj := qsum (map saidas_proj projecoes) in
  let saldo := total_ent_proj - total_sai_proj in
  let margem_seguranca := pct_if_positive saldo total_ent_proj in
  {| total_ent_proj := total_ent_proj;
     total_sai_proj := total_sai_proj;
     saldo_total_proj := saldo;
     roi_proj := pct_if_positive saldo total_sai_proj;
     saldo_acumulado := cumsum (map saldo_proj projecoes);
     recomendacao :=
       if negb (Qle_bool 0 saldo) then SaldoNegativo
       else if negb (Qle_bool saldo 0) then SaldoPositivo
       else SemRecomendacao;
     margem_seguranca := margem_seguranca;
     margem_baixa := negb (Qle_bool 10 margem_seguranca) |}.

(** ** The monthly table of [page_dashboard] *)

Section Dashboard.

Context {RT : Runtime}.





End Dashboard.

(** ** [fmt_currency] *)

(** [s.replace(old, new)] for two strings of one character. *)
Fixpoint replace_char (old new : ascii) (s : string) : string :=
  match s with
  | EmptyString => EmptyString
  | String c s' =>
      String (if Ascii.eqb c old then new else c) (replace_char old new s')
  end.

(** [.replace(",", "_").replace(".", ",").replace("_", ".")] *)
Definition trocar_separadores (s : string) : string :=
  replace_char "_" "." (replace_char "." "," (replace_char "," "_" s)).

Section Formatting.

(** [f"{v:,.2f}"]: the number with two decimals and a comma between the
    thousands. *)
Variable format_2f : Q -> string.

Definition fmt_currency (value : Q) (simbolo : string) : string :=
  let valor := value in
  let formatted := trocar_separadores (format_2f (Qabs valor)) in
  let prefix :=
    if Qle_bool 0 valor then (simbolo ++ " ")%string
    else ("-" ++ simbolo ++ " ")%string in
  (prefix ++ formatted)%string.

End Formatting.

(** The exchange of the two separators, character by character. *)
Definition trocar (c : ascii) : ascii :=
  if Ascii.eqb c "," then "."%char
  else if Ascii.eqb c "." then ","%char
  else c.

Fixpoint str_map (f : ascii -> ascii) (s : string) : string :=
  match s with
  | EmptyString => EmptyString
  | String c s' => String (f c) (str_map f s')
  end.

(** * Properties *)

(** ** Sums *)

Lemma qsum_app (l1 l2 : list Q) : qsum (l1 ++ l2) == qsum l1 + qsum l2.
Proof.
  induction l1 as [|x l1 IH]; simpl.
  - ring.
  - rewrite IH. ring.
Qed.

Lemma qsum_perm (l1 l2 : list Q) : Permutation l1 l2 -> qsum l1 == qsum l2.
Proof.
  induction 1 as [|x l1 l2 _ IH|x y l|l1 l2 l3 _ IH1 _ IH2]; simpl.
  - reflexivity.
  - rewrite IH. reflexivity.
  - ring.
  - rewrite IH1. exact IH2.
Qed.

(** ** Sorting keeps the elements *)

Lemma insert_sorted_perm (A : Type) (before : A -> A -> bool) (x : A)
      (l : list A) :
  Permutation (x :: l) (insert_sorted before x l).
Proof.
  induction l as [|y l IH]; simpl.
  - apply Permutation_refl.
  - destruct (before x y).
    + apply Permutation_refl.
    + eapply perm_trans; [apply perm_swap|]. apply perm_skip. exact IH.
Qed.

Lemma isort_perm (A : Type) (before : A -> A -> bool) (l : list A) :
  Permutation l (isort before l).
Proof.
  induction l as [|x l IH]; simpl.
  - apply perm_nil.
  - eapply perm_trans; [apply perm_skip; exact IH|].
    apply insert_sorted_perm.
Qed.

Lemma sort_uniq_NoDup (A : Type) (before : A -> A -> bool)
      (eq_dec : forall x y : A, {x = y} + {x <> y}) (l : list A) :
  NoDup (sort_uniq before eq_dec l).
Proof.
  unfold sort_uniq.
  eapply Permutation_NoDup; [apply isort_perm|]. apply NoDup_nodup.
Qed.

Lemma sort_uniq_In (A : Type) (before : A -> A -> bool)
      (eq_dec : forall x y : A, {x = y} + {x <> y}) (l : list A) (x : A) :
  In x (sort_uniq before eq_dec l) <-> In x l.
Proof.
  unfold sort_uniq. split; intros H.
  - apply (nodup_In eq_dec).
    eapply Permutation_in; [apply Permutation_sym, isort_perm|exact H].
  - eapply Permutation_in; [apply isort_perm|]. apply nodup_In. exact H.
Qed.

Lemma sort_uniq_nil (A : Type) (before : A -> A -> bool)
      (eq_dec : forall x y : A, {x = y} + {x <> y}) (l : list A) :
  sort_uniq before eq_dec l = [] <-> l = [].
Proof.
  split; intros H.
  - destruct l as [|x l]; [reflexivity|].
    assert (Hin : In x (sort_uniq before eq_dec (x :: l)))
      by (apply sort_uniq_In; left; reflexivity).
    rewrite H in Hin. destruct Hin.
  - subst l. reflexivity.
Qed.

(** ** KPIs *)

Section KpiProperties.

Context {RT : Runtime}.

Lemma sum_tipo_spec_total (k : string) (df : DataFrame) :
  sum_tipo k df = spec_total k df.
Proof.
  unfold sum_tipo, tipo_norm.
  induction df as [|r df IH]; simpl.
  - reflexivity.
  - destruct (String.eqb (str_lower (str_strip (tipo r))) k); simpl.
    + rewrite IH. reflexivity.
    + exact IH.
Qed.

Lemma sum_tipo_app (k : string) (df1 df2 : DataFrame) :
  sum_tipo k (df1 ++ df2) == sum_tipo k df1 + sum_tipo k df2.
Proof.
  unfold sum_tipo. rewrite filter_app, map_app. apply qsum_app.
Qed.

Lemma sum_tipo_perm (k : string) (df1 df2 : DataFrame) :
  Permutation df1 df2 -> sum_tipo k df1 == sum_tipo k df2.
Proof.
  intros H. unfold sum_tipo. apply qsum_perm, Permutation_map.
  induction H as [|x l1 l2 _ IH|x y l|l1 l2 l3 _ IH1 _ IH2]; simpl.
  - apply perm_nil.
  - destruct (String.eqb (tipo_norm (tipo x)) k);
      [apply perm_skip|]; exact IH.
  - destruct (String.eqb (tipo_norm (tipo x)) k),
             (String.eqb (tipo_norm (tipo y)) k);
      try apply perm_swap; apply Permutation_refl.
  - eapply perm_trans; eassumption.
Qed.

(** The fields of the snapshot, whatever the collection. *)
Lemma calcular_kpis_fields (df : DataFrame) :
  entradas (calcular_kpis df) = sum_tipo "entrada" df
  /\ saidas (calcular_kpis df) = sum_tipo "saída" df
  /\ total_lancamentos (calcular_kpis df) = Z.of_nat (List.length df).
Proof.
  destruct df as [|r df]; repeat split; reflexivity.
Qed.

Lemma calcular_kpis_saldo (df : DataFrame) :
  saldo (calcular_kpis df)
  = entradas (calcular_kpis df) - saidas (calcular_kpis df).
Proof. destruct df as [|r df]; reflexivity. Qed.

(** C8: the balance of the snapshot is its inflow total minus its outflow
    total, and these totals are the sums of the amounts of the entries whose
    trimmed, lower-cased kind is "entrada", respectively "saída". *)
Theorem kpis_saldo_is_entradas_minus_saidas (df : DataFrame) :
  saldo (calcular_kpis df)
  = entradas (calcular_kpis df) - saidas (calcular_kpis df)
  /\ entradas (calcular_kpis df) = spec_total "entrada" df
  /\ saidas (calcular_kpis df) = spec_total "saída" df.
Proof.
  destruct (calcular_kpis_fields df) as (He & Hs & _).
  split; [apply calcular_kpis_saldo|].
  rewrite He, Hs, !sum_tipo_spec_total. split; reflexivity.
Qed.

(** An entry of another kind is dropped by the selection of a kind. *)
Lemma sum_tipo_insert_other (k : string) (df1 df2 : DataFrame)
      (e : Lancamento) :
  tipo_norm (tipo e) <> k ->
  sum_tipo k (df1 ++ e :: df2) = sum_tipo k (df1 ++ df2).
Proof.
  intros H. unfold sum_tipo. rewrite !filter_app. simpl.
  destruct (String.eqb_spec (tipo_norm (tipo e)) k) as [Heq|_];
    [contradiction|reflexivity].
Qed.

(** C10: an entry whose normalised kind is neither "entrada" nor "saída",
    added anywhere in the collection, leaves the inflow total, the outflow
    total and the balance as they were and makes the count one more. *)
Theorem kpis_unrecognized_kind (df1 df2 : DataFrame) (e : Lancamento) :
  tipo_norm (tipo e) <> "entrada"%string ->
  tipo_norm (tipo e) <> "saída"%string ->
  entradas (calcular_kpis (df1 ++ e :: df2))
    = entradas (calcular_kpis (df1 ++ df2))
  /\ saidas (calcular_kpis (df1 ++ e :: df2))
     = saidas (calcular_kpis (df1 ++ df2))
  /\ saldo (calcular_kpis (df1 ++ e :: df2))
     = saldo (calcular_kpis (df1 ++ df2))
  /\ total_lancamentos (calcular_kpis (df1 ++ e :: df2))
     = (total_lancamentos (calcular_kpis (df1 ++ df2)) + 1)%Z.
Proof.
  intros He Hs.
  pose proof (calcular_kpis_saldo (df1 ++ e :: df2)) as Hb.
  pose proof (calcular_kpis_saldo (df1 ++ df2)) as Hb'.
  destruct (calcular_kpis_fields (df1 ++ e :: df2)) as (H1 & H2 & H3).
  destruct (calcular_kpis_fields (df1 ++ df2)) as (H1' & H2' & H3').
  assert (E : entradas (calcular_kpis (df1 ++ e :: df2))
              = entradas (calcular_kpis (df1 ++ df2))).
  { rewrite H1, H1'. apply sum_tipo_insert_other. exact He. }
  assert (S : saidas (calcular_kpis (df1 ++ e :: df2))
              = saidas (calcular_kpis (df1 ++ df2))).
  { rewrite H2, H2'. apply sum_tipo_insert_other. exact Hs. }
  repeat split.
  - exact E.
  - exact S.
  - rewrite Hb, Hb', E, S. reflexivity.
  - rewrite H3, H3', !length_app. simpl. lia.
Qed.

End KpiProperties.

Lemma kpis_unrecognized_kind_witness :
  let RT := PyRuntime.runtime in
  let df1 := [lanc 1 "2024-01-05" "Entrada" 1000] in
  let df2 := [lanc 2 "2024-01-20" " SAÍDA" 400] in
  let e := lanc 3 "2024-01-21" "Transferência" 50 in
  entradas (calcular_kpis (df1 ++ e :: df2))
    = entradas (calcular_kpis (df1 ++ df2))
  /\ saidas (calcular_kpis (df1 ++ e :: df2))
     = saidas (calcular_kpis (df1 ++ df2))
  /\ saldo (calcular_kpis (df1 ++ e :: df2))
     = saldo (calcular_kpis (df1 ++ df2))
  /\ total_lancamentos (calcular_kpis (df1 ++ e :: df2))
     = (total_lancamentos (calcular_kpis (df1 ++ df2)) + 1)%Z.
Proof.
  intros RT df1 df2 e.
  apply (@kpis_unrecognized_kind RT df1 df2 e);
    vm_compute; intros H; discriminate H.
Defined.

(** ** Reading the table *)

Section ReadProperties.

Context {RT : Runtime}.

Lemma read_lancamentos_rows (table : list DbRow) (filtros : option Filtros) :
  read_lancamentos table filtros
  = map coerce_row (isort order_by (filter (where_clause filtros) table)).
Proof.
  unfold read_lancamentos.
  destruct (isort order_by (filter (where_clause filtros) table));
    reflexivity.
Qed.

Lemma read_lancamentos_length (table : list DbRow)
      (filtros : option Filtros) :
  List.length (read_lancamentos table filtros)
  = List.length (filter (where_clause filtros) table).
Proof.
  rewrite read_lancamentos_rows, length_map.
  apply Permutation_length, Permutation_sym, isort_perm.
Qed.

(** A selected row is somewhere in the frame that is read. *)
Lemma read_lancamentos_insert (t1 t2 : list DbRow) (r : DbRow)
      (filtros : option Filtros) :
  where_clause filtros r = true ->
  Permutation (read_lancamentos (t1 ++ r :: t2) filtros)
              (coerce_row r :: read_lancamentos (t1 ++ t2) filtros).
Proof.
  intros Hw. rewrite !read_lancamentos_rows.
  change (coerce_row r
            :: map coerce_row
                 (isort order_by (filter (where_clause filtros) (t1 ++ t2))))
    with (map coerce_row
            (r :: isort order_by (filter (where_clause filtros) (t1 ++ t2)))).
  apply Permutation_map.
  eapply perm_trans; [apply Permutation_sym, isort_perm|].
  eapply perm_trans; [|apply perm_skip, isort_perm].
  rewrite !filter_app. simpl. rewrite Hw.
  apply Permutation_sym, Permutation_middle.
Qed.

Lemma sum_tipo_cons_zero (k : string) (r : Lancamento) (df : DataFrame) :
  valor r == 0 -> sum_tipo k (r :: df) == sum_tipo k df.
Proof.
  intros Hz. unfold sum_tipo. simpl.
  destruct (String.eqb (tipo_norm (tipo r)) k); simpl.
  - rewrite Hz. ring.
  - reflexivity.
Qed.

(** C7: the count of the snapshot is the number of rows passed in; through
    [read_lancamentos] it is the number of rows the query selects, whatever
    their dates and amounts; and a selected row whose amount does not parse
    adds nothing to the two sums and one to the count. *)
Theorem kpis_count_every_row :
  (forall df : DataFrame,
      total_lancamentos (calcular_kpis df) = Z.of_nat (List.length df))
  /\ (forall (table : list DbRow) (filtros : option Filtros),
         total_lancamentos (calcular_kpis (read_lancamentos table filtros))
         = Z.of_nat (List.length (filter (where_clause filtros) table)))
  /\ (forall (t1 t2 : list DbRow) (r : DbRow) (filtros : option Filtros),
         to_numeric (db_valor r) = None ->
         where_clause filtros r = true ->
         let k := calcular_kpis (read_lancamentos (t1 ++ r :: t2) filtros) in
         let k' := calcular_kpis (read_lancamentos (t1 ++ t2) filtros) in
         valor (coerce_row r) = 0
         /\ entradas k == entradas k'
         /\ saidas k == saidas k'
         /\ total_lancamentos k = (total_lancamentos k' + 1)%Z).
Proof.
  split; [|split].
  - intros df. apply calcular_kpis_fields.
  - intros table filtros.
    destruct (calcular_kpis_fields (read_lancamentos table filtros))
      as (_ & _ & ->).
    rewrite read_lancamentos_length. reflexivity.
  - intros t1 t2 r filtros Hn Hw k k'. subst k k'.
    assert (Hv : valor (coerce_row r) = 0)
      by (unfold coerce_row; simpl; rewrite Hn; reflexivity).
    pose proof (read_lancamentos_insert t1 t2 r filtros Hw) as HP.
    destruct (calcular_kpis_fields (read_lancamentos (t1 ++ r :: t2) filtros))
      as (-> & -> & ->).
    destruct (calcular_kpis_fields (read_lancamentos (t1 ++ t2) filtros))
      as (-> & -> & ->).
    repeat split.
    + exact Hv.
    + rewrite (sum_tipo_perm _ HP). apply sum_tipo_cons_zero.
      rewrite Hv. reflexivity.
    + rewrite (sum_tipo_perm _ HP). apply sum_tipo_cons_zero.
      rewrite Hv. reflexivity.
    + rewrite (Permutation_length HP). simpl. lia.
Qed.

End ReadProperties.

Lemma kpis_count_every_row_witness :
  let RT := PyRuntime.runtime in
  let t1 := [dbrow 1 "2024-01-05" "Entrada" (SqlReal 1000)] in
  let t2 := [dbrow 3 "sem data" "Saída" (SqlReal 400)] in
  let r := dbrow 2 "2024-01-20" "Entrada" (SqlText "abc") in
  let k := calcular_kpis (read_lancamentos (t1 ++ r :: t2) None) in
  let k' := calcular_kpis (read_lancamentos (t1 ++ t2) None) in
  valor (coerce_row r) = 0
  /\ entradas k == entradas k'
  /\ saidas k == saidas k'
  /\ total_lancamentos k = (total_lancamentos k' + 1)%Z.
Proof.
  intros RT t1 t2 r.
  apply (proj2 (proj2 (@kpis_count_every_row RT)) t1 t2 r None);
    reflexivity.
Defined.

(** ** The comparison of two periods *)

Lemma calc_variation_rule (a b : Q) : variation_rule a b (calc_variation a b).
Proof.
  unfold variation_rule, calc_variation.
  destruct (Qeq_bool a 0) eqn:Ha.
  - apply Qeq_bool_eq in Ha.
    destruct (Qeq_bool b 0) eqn:Hb.
    + apply Qeq_bool_eq in Hb. repeat split; intros; try reflexivity;
        contradiction.
    + apply Qeq_bool_neq in Hb. repeat split; intros; try reflexivity;
        contradiction.
  - apply Qeq_bool_neq in Ha. repeat split; intros; try reflexivity;
      contradiction.
Qed.

(** From a snapshot to itself a metric that is not zero does not vary. *)
Lemma calc_variation_same (a : Q) : ~ a == 0 -> calc_variation a a == 0.
Proof.
  intros Ha. destruct (calc_variation_rule a a) as (H & _).
  rewrite (H Ha). field. exact Ha.
Qed.

Lemma calc_variation_zero_zero : calc_variation 0 0 == 0.
Proof. reflexivity. Qed.

Lemma calc_variation_zero_positive (b : Q) : 0 < b -> calc_variation 0 b == 100.
Proof.
  intros Hb. destruct (calc_variation_rule 0 b) as (_ & _ & H).
  apply H; [reflexivity|]. intros E. rewrite E in Hb.
  exact (Qlt_irrefl 0 Hb).
Qed.

Example calc_variation_1000_1500 : calc_variation 1000 1500 == 50.
Proof. reflexivity. Qed.

(** C2: each of the four variations that the page shows, inflow, outflow,
    balance and entry count, is [(B - A) / A * 100], except from a zero base,
    where it is 0 when [B] is zero too and 100 otherwise; so a metric that
    is not zero does not vary against itself, zero against zero gives 0 and
    zero against a positive value gives 100. *)
Theorem page_comparativo_rule (kpis1 kpis2 : Kpis) :
  let v := page_comparativo kpis1 kpis2 in
  variation_rule (entradas kpis1) (entradas kpis2) (var_entradas v)
  /\ variation_rule (saidas kpis1) (saidas kpis2) (var_saidas v)
  /\ variation_rule (saldo kpis1) (saldo kpis2) (var_saldo v)
  /\ variation_rule (inject_Z (total_lancamentos kpis1))
                    (inject_Z (total_lancamentos kpis2)) (var_lanc v)
  /\ (forall a : Q, ~ a == 0 -> calc_variation a a == 0)
  /\ calc_variation 0 0 == 0
  /\ (forall b : Q, 0 < b -> calc_variation 0 b == 100).
Proof.
  simpl. repeat split; try apply calc_variation_rule.
  - exact calc_variation_same.
  - exact calc_variation_zero_positive.
Qed.

(** ** The monthly pivot *)

Lemma column_map (f : string -> list Q) (k : string) (cols : list string) :
  column k (map (fun k' => (k', f k')) cols)
  = if in_dec string_dec k cols then Some (f k) else None.
Proof.
  induction cols as [|k' cols IH]; simpl.
  - reflexivity.
  - destruct (String.eqb_spec k' k) as [->|Hne].
    + destruct (string_dec k k) as [Hkk|Hkk]; [reflexivity|contradiction].
    + rewrite IH. destruct (string_dec k' k) as [Heq|Hn]; [contradiction|].
      destruct (in_dec string_dec k cols); reflexivity.
Qed.

(** The column of a kind in the pivot: there exactly when some row has the
    kind, and then the sums of the kind month by month. *)
Lemma groupby_column (rows : list MonthRow) (k : string) :
  column k (pv_columns (groupby_sum_unstack rows))
  = if in_dec string_dec k (map mr_tipo_norm rows)
    then Some (map (fun m => group_sum rows m k)
                   (pv_index (groupby_sum_unstack rows)))
    else None.
Proof.
  unfold groupby_sum_unstack. simpl. rewrite column_map.
  destruct (in_dec string_dec k
              (sort_uniq String.leb string_dec (map mr_tipo_norm rows)))
    as [Hin|Hout];
    destruct (in_dec string_dec k (map mr_tipo_norm rows)) as [Hin'|Hout'];
    try reflexivity.
  - apply sort_uniq_In in Hin. contradiction.
  - exfalso. apply Hout, sort_uniq_In, Hin'.
Qed.

Lemma groupby_index_nil (rows : list MonthRow) :
  pv_index (groupby_sum_unstack rows) = [] <-> rows = [].
Proof.
  unfold groupby_sum_unstack. simpl. rewrite sort_uniq_nil.
  destruct rows; simpl; split; intros H; try reflexivity; discriminate H.
Qed.

Lemma groupby_empty (rows : list MonthRow) :
  pv_empty (groupby_sum_unstack rows) = df_empty rows.
Proof.
  destruct rows as [|r rows]; [reflexivity|].
  unfold pv_empty.
  destruct (pv_index (groupby_sum_unstack (r :: rows))) eqn:Hi.
  - apply groupby_index_nil in Hi. discriminate Hi.
  - destruct (pv_columns (groupby_sum_unstack (r :: rows))) eqn:Hc;
      [|reflexivity].
    unfold groupby_sum_unstack in Hc. simpl pv_columns in Hc.
    apply map_eq_nil, sort_uniq_nil in Hc. discriminate Hc.
Qed.

(** Every column of the pivot has one value per month. *)
Lemma groupby_column_length (rows : list MonthRow) (k : string)
      (s : list Q) :
  column k (pv_columns (groupby_sum_unstack rows)) = Some s ->
  List.length s = List.length (pv_index (groupby_sum_unstack rows)).
Proof.
  rewrite groupby_column.
  destruct (in_dec string_dec k (map mr_tipo_norm rows)); intros H;
    [|discriminate H].
  injection H as <-. apply length_map.
Qed.

Lemma qsum_zeros (A : Type) (l : list A) : qsum (map (fun _ => 0) l) == 0.
Proof.
  induction l as [|x l IH]; simpl; [reflexivity|]. rewrite IH. ring.
Qed.

Lemma qsum_map_plus (A : Type) (f g : A -> Q) (l : list A) :
  qsum (map (fun x => f x + g x) l) == qsum (map f l) + qsum (map g l).
Proof.
  induction l as [|x l IH]; simpl; [ring|]. rewrite IH. ring.
Qed.

Lemma qsum_map_ext (A : Type) (f g : A -> Q) (l : list A) :
  (forall x, f x == g x) -> qsum (map f l) == qsum (map g l).
Proof.
  intros H. induction l as [|x l IH]; simpl; [reflexivity|].
  rewrite IH, H. reflexivity.
Qed.

(** Over months without repetition, the value [v] placed at month [m0]
    and zero elsewhere adds up to [v] when [m0] is among them. *)
Lemma qsum_single_month (v : Q) (m0 : Z) (idx : list Z) :
  NoDup idx ->
  qsum (map (fun m => if (m0 =? m)%Z then v else 0) idx)
  == if in_dec Z.eq_dec m0 idx then v else 0.
Proof.
  induction 1 as [|m idx Hnot _ IH]; simpl.
  - reflexivity.
  - rewrite IH. destruct (Z.eqb_spec m0 m) as [->|Hne].
    + destruct (Z.eq_dec m m) as [Hmm|Hmm]; [|contradiction].
      destruct (in_dec Z.eq_dec m idx) as [Hin|Hin]; [contradiction|ring].
    + destruct (Z.eq_dec m m0) as [Heq|Heq];
        [symmetry in Heq; contradiction|].
      destruct (in_dec Z.eq_dec m0 idx); ring.
Qed.

(** Bucketing is a partition of the rows: over months without repetition
    that cover the rows, the bucket sums of a kind add up to the sum of the
    rows of the kind. *)
Lemma group_sum_partition (k : string) (idx : list Z) (rows : list MonthRow) :
  NoDup idx ->
  (forall r, In r rows -> In (mr_mes r) idx) ->
  qsum (map (fun m => group_sum rows m k) idx)
  == qsum (map mr_valor
             (filter (fun r => String.eqb (mr_tipo_norm r) k) rows)).
Proof.
  intros Hnd. induction rows as [|r rows IH]; intros Hcov.
  - unfold group_sum. simpl. apply qsum_zeros.
  - assert (Hstep : forall m,
               group_sum (r :: rows) m k
               == (if (mr_mes r =? m)%Z
                   then (if String.eqb (mr_tipo_norm r) k
                         then mr_valor r else 0)
                   else 0)
                  + group_sum rows m k).
    { intros m. unfold group_sum. simpl.
      destruct (mr_mes r =? m)%Z, (String.eqb (mr_tipo_norm r) k); simpl;
        ring. }
    rewrite (qsum_map_ext _ _ idx Hstep), qsum_map_plus.
    rewrite IH by (intros r' Hr'; apply Hcov; right; exact Hr').
    rewrite qsum_single_month by exact Hnd.
    destruct (in_dec Z.eq_dec (mr_mes r) idx) as [_|Hout];
      [|exfalso; apply Hout, Hcov; left; reflexivity].
    simpl. destruct (String.eqb (mr_tipo_norm r) k); simpl; ring.
Qed.

Section PivotProperties.

Context {RT : Runtime}.

Lemma month_rows_kind (norm : string -> string) (k : string)
      (w : list (Lancamento * datetime)) :
  qsum (map mr_valor
         (filter (fun r => String.eqb (mr_tipo_norm r) k)
                 (map (month_row norm) w)))
  = qsum (map valor
            (filter (fun r => String.eqb (norm (tipo r)) k) (map fst w))).
Proof.
  induction w as [|p w IH]; simpl; [reflexivity|].
  destruct (String.eqb (norm (tipo (fst p))) k); simpl;
    rewrite IH; reflexivity.
Qed.

(** The bucket totals of a kind add up to the sum of the rows of the
    kind, whatever the normalisation and the rows. *)
Lemma bucket_total_rows (norm : string -> string) (k : string)
      (w : list (Lancamento * datetime)) :
  bucket_total k (groupby_sum_unstack (map (month_row norm) w))
  == qsum (map valor
             (filter (fun r => String.eqb (norm (tipo r)) k) (map fst w))).
Proof.
  rewrite <- month_rows_kind. unfold bucket_total. rewrite groupby_column.
  destruct (in_dec string_dec k (map mr_tipo_norm (map (month_row norm) w)))
    as [_|Hout].
  - apply group_sum_partition.
    + apply sort_uniq_NoDup.
    + intros r Hr. apply sort_uniq_In, in_map, Hr.
  - assert (E : filter (fun r => String.eqb (mr_tipo_norm r) k)
                       (map (month_row norm) w) = []).
    { induction (map (month_row norm) w) as [|r rows IH]; [reflexivity|].
      simpl. destruct (String.eqb_spec (mr_tipo_norm r) k) as [Heq|_].
      - exfalso. apply Hout. left. exact Heq.
      - apply IH. intros Hin. apply Hout. right. exact Hin. }
    rewrite E. reflexivity.
Qed.

(** C5: over the entries with a parseable date inside the window, the
    bucket totals of a kind add up to the KPI total of the kind over the same
    entries, and every such entry falls in exactly one bucket: its month
    occurs once in the index of the pivot. *)
Theorem buckets_partition_window (now : datetime) (periodo : Z)
        (df : DataFrame) :
  let w := janela now periodo df in
  let monthly := groupby_sum_unstack (map (month_row tipo_norm) w) in
  bucket_total "entrada" monthly == entradas (calcular_kpis (map fst w))
  /\ bucket_total "saída" monthly == saidas (calcular_kpis (map fst w))
  /\ (forall p, In p w ->
        count_occ Z.eq_dec (pv_index monthly) (to_period_M (snd p)) = 1%nat).
Proof.
  intros w monthly.
  destruct (calcular_kpis_fields (map fst w)) as (-> & -> & _).
  repeat split.
  - apply bucket_total_rows.
  - apply bucket_total_rows.
  - intros p Hp. apply NoDup_count_occ'.
    + apply sort_uniq_NoDup.
    + apply sort_uniq_In.
      change (to_period_M (snd p)) with (mr_mes (month_row tipo_norm p)).
      apply in_map, in_map, Hp.
Qed.

(** C4: when no date of the history parses, so that the history has no
    monthly bucket, the page stops with a warning and projects nothing. *)
Theorem previsoes_insufficient_data (df_historico : DataFrame)
        (meses_projecao : Z) :
  no_parseable_date df_historico ->
  insufficient_data (page_previsoes df_historico meses_projecao).
Proof.
  intros Hno. unfold page_previsoes.
  destruct (df_empty df_historico); [exact I|].
  assert (E : dropna_data_dt df_historico = []).
  { induction df_historico as [|r df IH]; [reflexivity|]. simpl.
    rewrite (Hno r) by (left; reflexivity).
    apply IH. intros r' Hr'. apply Hno. right. exact Hr'. }
  rewrite E. exact I.
Qed.

(** Conversely, one parseable date is enough for a projection. *)
Lemma previsoes_projecoes (df_historico : DataFrame) (meses_projecao : Z) :
  ~ no_parseable_date df_historico ->
  page_previsoes df_historico meses_projecao
  = Projecoes
      (projetar (groupby_sum_unstack
                   (map (month_row str_lower) (dropna_data_dt df_historico)))
                meses_projecao).
Proof.
  intros Hsome. unfold page_previsoes.
  destruct (df_empty df_historico) eqn:Edf.
  - exfalso. apply Hsome. destruct df_historico; [|discriminate Edf].
    intros r [].
  - rewrite groupby_empty.
    destruct (dropna_data_dt df_historico) as [|p w] eqn:Ew;
      [|reflexivity].
    exfalso. apply Hsome. clear Edf Hsome.
    induction df_historico as [|r df IH]; intros r' Hr'; [destruct Hr'|].
    simpl in Ew. destruct (to_datetime (data r)) eqn:Hd; [discriminate Ew|].
    destruct Hr' as [<-|Hr']; [exact Hd|]. apply IH; assumption.
Qed.

End PivotProperties.

Lemma previsoes_insufficient_data_witness :
  let RT := PyRuntime.runtime in
  let df := [lanc 1 "sem data" "Entrada" 1000; lanc 2 "32/13/2024" "Saída" 5] in
  insufficient_data (page_previsoes df 6).
Proof.
  intros RT df.
  apply (@previsoes_insufficient_data RT df 6).
  intros r [<-|[<-|[]]]; reflexivity.
Defined.

(** ** The least-squares line *)

Lemma qsum_squares_nonneg (A : Type) (f : A -> Q) (l : list A) :
  0 <= qsum (map (fun x => f x * f x) l).
Proof.
  induction l as [|x l IH]; simpl.
  - apply Qle_refl.
  - assert (H : 0 <= f x * f x) by nra. lra.
Qed.

Lemma map_fst_combine (A B : Type) (x : list A) (y : list B) :
  List.length x = List.length y -> map fst (combine x y) = x.
Proof.
  revert y. induction x as [|a x IH]; intros [|b y] H; simpl in *;
    try reflexivity; try discriminate H.
  rewrite IH by (injection H as H; exact H). reflexivity.
Qed.

Lemma map_snd_combine (A B : Type) (x : list A) (y : list B) :
  List.length x = List.length y -> map snd (combine x y) = y.
Proof.
  revert y. induction x as [|a x IH]; intros [|b y] H; simpl in *;
    try reflexivity; try discriminate H.
  rewrite IH by (injection H as H; exact H). reflexivity.
Qed.

Lemma length_combine_same (A B : Type) (x : list A) (y : list B) :
  List.length x = List.length y ->
  List.length (combine x y) = List.length x.
Proof.
  intros H. rewrite length_combine, <- H. apply Nat.min_id.
Qed.

Lemma qlen_cons (A : Type) (a : A) (l : list A) : qlen (a :: l) == qlen l + 1.
Proof.
  unfold qlen. simpl List.length. rewrite Nat2Z.inj_succ, <- Z.add_1_r.
  rewrite inject_Z_plus. reflexivity.
Qed.

Section LeastSquares.

Variable ps : list (Q * Q).
Variables s c : Q.

(** The residuals of the line [(s, c)] and their moments, in terms of
    the sums of the points. *)
Lemma sum_resid :
  qsum (map (residual s c) ps)
  == qsum (map snd ps) - s * qsum (map fst ps) - qlen ps * c.
Proof.
  unfold residual. induction ps as [|p l IH].
  - unfold qlen. simpl. ring.
  - rewrite qlen_cons. simpl. rewrite IH. ring.
Qed.

Lemma sum_resid_x :
  qsum (map (fun p => residual s c p * fst p) ps)
  == qsum (map (fun p => fst p * snd p) ps)
     - s * qsum (map (fun p => fst p * fst p) ps)
     - c * qsum (map fst ps).
Proof.
  unfold residual. induction ps as [|p l IH]; simpl.
  - ring.
  - rewrite IH. ring.
Qed.

(** The squared error of any line [(a, b)], against that of [(s, c)]. *)
Lemma sse_decompose (a b : Q) :
  qsum (map (fun p => (snd p - (a * fst p + b))
                      * (snd p - (a * fst p + b))) ps)
  == qsum (map (fun p => residual s c p * residual s c p) ps)
     + 2 * (s - a) * qsum (map (fun p => residual s c p * fst p) ps)
     + 2 * (c - b) * qsum (map (residual s c) ps)
     + qsum (map (fun p => ((s - a) * fst p + (c - b))
                           * ((s - a) * fst p + (c - b))) ps).
Proof.
  unfold residual. induction ps as [|p l IH]; simpl.
  - ring.
  - rewrite IH. ring.
Qed.

End LeastSquares.

Lemma arange_S (n : nat) :
  arange (S n) = arange n ++ [inject_Z (Z.of_nat n)].
Proof. unfold arange. rewrite seq_S, map_app. reflexivity. Qed.

Lemma qlen_arange (n : nat) : qlen (arange n) = inject_Z (Z.of_nat n).
Proof. unfold qlen, arange. rewrite length_map, length_seq. reflexivity. Qed.

Lemma inject_Z_S (n : nat) :
  inject_Z (Z.of_nat (S n)) == inject_Z (Z.of_nat n) + 1.
Proof.
  rewrite Nat2Z.inj_succ, <- Z.add_1_r, inject_Z_plus. reflexivity.
Qed.

(** The sums of the indices [0 .. n-1] and of their squares. *)
Lemma qsum_arange (n : nat) :
  qsum (arange n)
  == inject_Z (Z.of_nat n) * (inject_Z (Z.of_nat n) - 1) / 2.
Proof.
  induction n as [|n IH].
  - reflexivity.
  - rewrite arange_S, qsum_app, IH, inject_Z_S. simpl qsum. field.
Qed.

Lemma qsum_arange_squares (n : nat) :
  qsum (map (fun v => v * v) (arange n))
  == (inject_Z (Z.of_nat n) - 1) * inject_Z (Z.of_nat n)
     * (2 * inject_Z (Z.of_nat n) - 1) / 6.
Proof.
  induction n as [|n IH].
  - reflexivity.
  - rewrite arange_S, map_app, qsum_app, IH, inject_Z_S. simpl qsum. field.
Qed.

Lemma dot_self (x : list Q) : dot x x = qsum (map (fun v => v * v) x).
Proof.
  unfold dot. induction x as [|v x IH]; simpl; [reflexivity|].
  rewrite IH. reflexivity.
Qed.

(** With two indices or more the normal equations have one solution. *)
Lemma arange_determinant (n : nat) :
  (2 <= n)%nat ->
  0 < qlen (arange n) * dot (arange n) (arange n)
      - qsum (arange n) * qsum (arange n).
Proof.
  intros Hn. rewrite dot_self, qlen_arange, qsum_arange, qsum_arange_squares.
  set (q := inject_Z (Z.of_nat n)).
  assert (Hq : 2 <= q).
  { unfold q. change 2 with (inject_Z 2). rewrite <- Zle_Qle. lia. }
  assert (E : q * ((q - 1) * q * (2 * q - 1) / 6)
              - q * (q - 1) / 2 * (q * (q - 1) / 2)
              == q * q * (q - 1) * (q + 1) / 12) by field.
  rewrite E.
  assert (H1 : 0 < q * q) by nra.
  assert (H2 : 0 < (q - 1) * (q + 1)) by nra.
  assert (H3 : 0 < (q * q) * ((q - 1) * (q + 1))) by nra.
  assert (E' : q * q * (q - 1) * (q + 1) / 12
               == (q * q) * ((q - 1) * (q + 1)) * (1 # 12)) by field.
  rewrite E'. lra.
Qed.

(** [np.polyfit(np.arange(n), y, 1)] is a least-squares line. *)
Lemma polyfit1_least_squares (y : list Q) :
  (2 <= List.length y)%nat ->
  let x := arange (List.length y) in
  least_squares_line x y (fst (polyfit1 x y)) (snd (polyfit1 x y)).
Proof.
  intros Hn x a b.
  assert (Hlen : List.length x = List.length y)
    by (unfold x, arange; rewrite length_map, length_seq; reflexivity).
  pose proof (arange_determinant Hn) as HD. fold x in HD.
  assert (Hq : 2 <= qlen x).
  { unfold x. rewrite qlen_arange. change 2 with (inject_Z 2).
    rewrite <- Zle_Qle. lia. }
  set (s := fst (polyfit1 x y)). set (c := snd (polyfit1 x y)).
  assert (Hs : s = (qlen x * dot x y - qsum x * qsum y)
                   / (qlen x * dot x x - qsum x * qsum x)) by reflexivity.
  assert (Hc : c = (qsum y - s * qsum x) / qlen x) by reflexivity.
  clearbody s c.
  unfold sse.
  rewrite (sse_decompose (combine x y) s c a b).
  assert (Hfst : qsum (map fst (combine x y)) = qsum x)
    by (rewrite map_fst_combine by exact Hlen; reflexivity).
  assert (Hsnd : qsum (map snd (combine x y)) = qsum y)
    by (rewrite map_snd_combine by exact Hlen; reflexivity).
  assert (Hxx : qsum (map (fun p => fst p * fst p) (combine x y))
                = dot x x).
  { rewrite dot_self.
    replace (map (fun v => v * v) x)
      with (map (fun v => v * v) (map fst (combine x y)))
      by (rewrite map_fst_combine by exact Hlen; reflexivity).
    rewrite map_map. reflexivity. }
  assert (Hnn : qlen (combine x y) = qlen x)
    by (unfold qlen; rewrite length_combine_same by exact Hlen; reflexivity).
  assert (N1 : qsum (map (residual s c) (combine x y)) == 0).
  { rewrite sum_resid, Hfst, Hsnd, Hnn, Hc.
    field. intros E. rewrite E in Hq. lra. }
  assert (N2 : qsum (map (fun p => residual s c p * fst p) (combine x y))
               == 0).
  { rewrite sum_resid_x, Hfst, Hxx. fold (dot x y).
    rewrite Hc, Hs.
    field. split; intros E; first [rewrite E in Hq | rewrite E in HD]; lra. }
  rewrite N1, N2.
  pose proof (qsum_squares_nonneg
                (fun p : Q * Q => (s - a) * fst p + (c - b))
                (combine x y)) as Hsq.
  cbv beta in Hsq. unfold residual. lra.
Qed.

(** ** The projection *)

Lemma max0_Qmax (v : Q) : max0 v == Qmax 0 v.
Proof.
  unfold max0. destruct (Qle_bool v 0) eqn:H.
  - apply Qle_bool_iff in H. symmetry. apply Q.max_l. exact H.
  - symmetry. apply Q.max_r.
    destruct (Qlt_le_dec v 0) as [Hlt|Hle]; [|exact Hle].
    apply Qlt_le_weak, Qle_bool_iff in Hlt. rewrite Hlt in H. discriminate H.
Qed.

Lemma max0_nonneg (v : Q) : 0 <= max0 v.
Proof.
  unfold max0. destruct (Qle_bool v 0) eqn:H.
  - apply Qle_refl.
  - destruct (Qlt_le_dec v 0) as [Hlt|Hle]; [|exact Hle].
    apply Qlt_le_weak, Qle_bool_iff in Hlt. rewrite Hlt in H. discriminate H.
Qed.

Lemma fold_max_bounds (l : list Z) (m : Z) :
  (m <= fold_left Z.max l m)%Z
  /\ (forall x, In x l -> (x <= fold_left Z.max l m)%Z)
  /\ In (fold_left Z.max l m) (m :: l).
Proof.
  revert m. induction l as [|y l IH]; intros m; simpl.
  - repeat split; [lia|intros x []|left; reflexivity].
  - destruct (IH (Z.max m y)) as (H1 & H2 & H3). repeat split.
    + lia.
    + intros x [<-|Hx]; [lia|apply H2, Hx].
    + destruct H3 as [H3|H3]; [|right; right; exact H3].
      destruct (Z.max_spec m y) as [(_ & E)|(_ & E)].
      * right. left. transitivity (Z.max m y); [symmetry; exact E|exact H3].
      * left. transitivity (Z.max m y); [symmetry; exact E|exact H3].
Qed.

(** [index_max] is the last month of an index that is not empty. *)
Lemma index_max_last (idx : list Z) :
  idx <> [] ->
  In (index_max idx) idx /\ forall m, In m idx -> (m <= index_max idx)%Z.
Proof.
  destruct idx as [|m0 idx]; [intros H; contradiction|intros _].
  destruct (fold_max_bounds idx m0) as (H1 & H2 & H3).
  split; [exact H3|]. intros m [<-|Hm]; [exact H1|apply H2, Hm].
Qed.

Lemma range1_length (n : Z) : List.length (range1 n) = Z.to_nat n.
Proof. unfold range1. rewrite length_map, length_seq. reflexivity. Qed.

Lemma range1_nth (n i : Z) :
  (1 <= i <= n)%Z -> nth_error (range1 n) (Z.to_nat (i - 1)) = Some i.
Proof.
  intros H. unfold range1.
  rewrite nth_error_map, nth_error_seq.
  destruct (Nat.ltb_spec (Z.to_nat (i - 1)) (Z.to_nat n)) as [_|Hge];
    [|lia].
  simpl. f_equal. lia.
Qed.

Section ProjectionProperties.

Context {RT : Runtime}.

(** The line that the page fits for a kind is the line of the
    specification. *)
Lemma fit_column_fitted (k : string) (rows : list MonthRow) :
  let monthly := groupby_sum_unstack rows in
  fitted k monthly (fst (fit_column k monthly)) (snd (fit_column k monthly)).
Proof.
  intros monthly. unfold fitted, fit_column.
  destruct (column k (pv_columns monthly)) as [y|] eqn:Hcol;
    [|split; reflexivity].
  pose proof (groupby_column_length rows k Hcol) as Hlen.
  fold monthly in Hlen. rewrite <- Hlen. unfold _fit.
  destruct (Nat.leb_spec 2 (List.length y)) as [Hge|Hlt].
  - replace ((2 <=? Z.of_nat (List.length y))%Z) with true
      by (symmetry; apply Z.leb_le; lia).
    destruct y as [|v y]; [simpl in Hge; lia|]. simpl df_empty. simpl andb.
    apply polyfit1_least_squares. exact Hge.
  - replace ((2 <=? Z.of_nat (List.length y))%Z) with false
      by (symmetry; apply Z.leb_gt; lia).
    simpl. destruct y; split; reflexivity.
Qed.

Lemma projetar_points (monthly : Pivot) (meses_projecao : Z) :
  projetar monthly meses_projecao
  = map (fun i =>
           let ent :=
             max0 (snd (fit_column "entrada" monthly)
                   + fst (fit_column "entrada" monthly)
                     * inject_Z (pv_len monthly + i - 1)) in
           let sai :=
             max0 (snd (fit_column "saída" monthly)
                   + fst (fit_column "saída" monthly)
                     * inject_Z (pv_len monthly + i - 1)) in
           {| mes := (index_max (pv_index monthly) + i)%Z;
              entradas_proj := ent;
              saidas_proj := sai;
              saldo_proj := ent - sai |})
        (range1 meses_projecao).
Proof.
  unfold projetar.
  destruct (fit_column "entrada" monthly) as (se, ie).
  destruct (fit_column "saída" monthly) as (ss, is_). reflexivity.
Qed.

(** C3: on a history with at least one monthly bucket the page fits, for
    each kind, a least-squares line over the zero-based bucket index when
    the kind has two points or more, and otherwise a flat line at the mean
    of its values (at 0 when the kind is absent); the projection has one
    point for each step [i] from 1 to the horizon, for the month [i] months
    after the last bucket, with the inflow and the outflow read off the lines
    at index [buckets + i - 1] and clamped at zero, and the balance their
    difference. *)
Theorem previsoes_linear_projection (df_historico : DataFrame)
        (meses_projecao : Z) :
  ~ no_parseable_date df_historico ->
  let monthly :=
    groupby_sum_unstack
      (map (month_row str_lower) (dropna_data_dt df_historico)) in
  let ent := fit_column "entrada" monthly in
  let sai := fit_column "saída" monthly in
  let last_month := index_max (pv_index monthly) in
  fitted "entrada" monthly (fst ent) (snd ent)
  /\ fitted "saída" monthly (fst sai) (snd sai)
  /\ (In last_month (pv_index monthly)
      /\ forall m, In m (pv_index monthly) -> (m <= last_month)%Z)
  /\ exists projecoes : list Projecao,
      page_previsoes df_historico meses_projecao = Projecoes projecoes
      /\ List.length projecoes = Z.to_nat meses_projecao
      /\ forall i : Z,
          (1 <= i <= meses_projecao)%Z ->
          exists p : Projecao,
            nth_error projecoes (Z.to_nat (i - 1)) = Some p
            /\ mes p = (last_month + i)%Z
            /\ entradas_proj p
               == Qmax 0 (snd ent
                          + fst ent * inject_Z (pv_len monthly + i - 1))
            /\ saidas_proj p
               == Qmax 0 (snd sai
                          + fst sai * inject_Z (pv_len monthly + i - 1))
            /\ saldo_proj p = entradas_proj p - saidas_proj p.
Proof.
  intros Hsome monthly ent sai last_month.
  pose proof (previsoes_projecoes meses_projecao Hsome) as Hpage.
  fold monthly in Hpage.
  split; [apply fit_column_fitted|].
  split; [apply fit_column_fitted|].
  split.
  - apply index_max_last. intros Hnil.
    apply groupby_index_nil, map_eq_nil in Hnil.
    unfold page_previsoes in Hpage.
    destruct (df_empty df_historico); [discriminate Hpage|].
    rewrite Hnil in Hpage. discriminate Hpage.
  - exists (projetar monthly meses_projecao).
    split; [exact Hpage|].
    rewrite projetar_points. split.
    + rewrite length_map. apply range1_length.
    + intros i Hi. rewrite nth_error_map, (range1_nth Hi). simpl.
      eexists. split; [reflexivity|]. simpl.
      repeat split; try reflexivity; apply max0_Qmax.
Qed.

End ProjectionProperties.

Lemma previsoes_linear_projection_witness :
  let RT := PyRuntime.runtime in
  let df := [lanc 2 "2024-02-10" "entrada" 1200;
             lanc 1 "2024-01-05" "entrada" 1000] in
  exists projecoes : list Projecao,
    page_previsoes df 1 = Projecoes projecoes
    /\ List.length projecoes = 1%nat
    /\ exists p : Projecao,
        nth_error projecoes 0 = Some p
        /\ mes p = 650%Z
        /\ entradas_proj p == 1400
        /\ saidas_proj p == 0
        /\ saldo_proj p = entradas_proj p - saidas_proj p.
Proof.
  intros RT df.
  assert (Hsome : ~ no_parseable_date df).
  { intros H. specialize (H _ (or_introl eq_refl)). discriminate H. }
  destruct (@previsoes_linear_projection RT df 1 Hsome)
    as (_ & _ & _ & projecoes & Hp & Hl & Hi).
  exists projecoes. split; [exact Hp|]. split; [exact Hl|].
  destruct (Hi 1%Z) as (p & Hn & Hm & He & Hs & Hb); [lia|].
  exists p. split; [exact Hn|]. split; [exact Hm|].
  split; [rewrite He; reflexivity|]. split; [rewrite Hs; reflexivity|].
  exact Hb.
Defined.

(** ** Floats *)

Lemma fadd_not_finite_l (x y : float) :
  is_finite x = false -> is_finite (fadd x y) = false.
Proof. destruct x, y; simpl; intros H; try reflexivity; discriminate H. Qed.

Lemma fadd_not_finite_r (x y : float) :
  is_finite y = false -> is_finite (fadd x y) = false.
Proof. destruct x, y; simpl; intros H; try reflexivity; discriminate H. Qed.

(** A sum with a term that is not finite is not finite. *)
Lemma fsum_not_finite (l : list float) (x : float) :
  In x l -> is_finite x = false -> is_finite (fsum l) = false.
Proof.
  induction l as [|y l IH]; intros Hin Hx; [destruct Hin|].
  simpl. destruct Hin as [->|Hin].
  - apply fadd_not_finite_l, Hx.
  - apply fadd_not_finite_r, IH; assumption.
Qed.

Lemma signed_inf_not_finite (inf : float) (q : Q) :
  is_finite inf = false -> is_finite (signed_inf inf q) = false.
Proof.
  unfold signed_inf. destruct (Qneg_b q), inf; simpl; intros H;
    try reflexivity; discriminate H.
Qed.

Lemma fdiv_not_finite (x : float) (q : Q) :
  is_finite x = false -> is_finite (fdiv x (Fin q)) = false.
Proof.
  destruct x; simpl; intros H; try reflexivity; try discriminate H;
    apply signed_inf_not_finite; reflexivity.
Qed.

Lemma fmul_100_not_finite (x : float) :
  is_finite x = false -> is_finite (fmul x (Fin 100)) = false.
Proof. destruct x; simpl; intros H; try reflexivity; discriminate H. Qed.

Lemma fsum_Fin (l : list Q) : fsum (map Fin l) = Fin (qsum l).
Proof.
  induction l as [|q l IH]; simpl; [reflexivity|]. rewrite IH. reflexivity.
Qed.

Lemma notna_Fin (l : list Q) : notna (map Fin l) = map Fin l.
Proof.
  unfold notna. induction l as [|q l IH]; simpl; [reflexivity|].
  rewrite IH. reflexivity.
Qed.

(** A not-a-number takes no part in the mean. *)
Lemma mean_skips_nan (l1 l2 : list float) :
  mean (l1 ++ NaN :: l2) = mean (l1 ++ l2).
Proof. unfold mean, notna. rewrite !filter_app. reflexivity. Qed.

(** ** The trend of a series *)

(** The step from [prev] to [v], by the sign of the two values. *)
Lemma pct_step_cases (prev v : Q) :
  let step := fsub (fdiv (Fin v) (Fin prev)) (Fin 1) in
  (~ prev == 0 -> exists q, step = Fin q /\ q == (v - prev) / prev)
  /\ (prev == 0 -> v == 0 -> step = NaN)
  /\ (prev == 0 -> ~ v == 0 -> step = PInf \/ step = NInf).
Proof.
  simpl. unfold fsub, fdiv. repeat split.
  - intros Hp. destruct (Qeq_bool prev 0) eqn:E.
    + apply Qeq_bool_eq in E. contradiction.
    + simpl. eexists. split; [reflexivity|]. field. exact Hp.
  - intros Hp Hv. apply Qeq_eq_bool in Hp, Hv. rewrite Hp, Hv. reflexivity.
  - intros Hp Hv. apply Qeq_eq_bool in Hp. rewrite Hp.
    destruct (Qeq_bool v 0) eqn:E.
    + apply Qeq_bool_eq in E. contradiction.
    + unfold signed_inf. destruct (Qneg_b v); simpl; [right|left];
        reflexivity.
Qed.

(** Without a zero among the priors every step is a number. *)
Lemma pct_steps_finite (prev : Q) (l : list Q) :
  priors_nonzero_from prev l ->
  exists qs, pct_steps prev l = map Fin qs
             /\ List.length qs = List.length l
             /\ qsum qs == qsum (spec_steps prev l).
Proof.
  revert prev. induction l as [|v l IH]; intros prev H.
  - exists []. repeat split; reflexivity.
  - destruct H as (Hp & Hrest).
    destruct (IH v Hrest) as (qs & E & Hl & Hs).
    destruct (pct_step_cases prev v) as (Hstep & _).
    destruct (Hstep Hp) as (q & Eq & Hq).
    exists (q :: qs). split; [|split].
    + cbn [pct_steps map]. rewrite E, Eq. reflexivity.
    + simpl. rewrite Hl. reflexivity.
    + cbn [spec_steps qsum]. rewrite Hs, Hq. reflexivity.
Qed.

(** The trend of a series of two months or more without a zero among the
    priors: the mean of the changes, as a percentage. *)
Lemma trend_of_finite (s : list Q) :
  (2 <= List.length s)%nat ->
  priors_nonzero s ->
  exists q, trend_of s = Fin q /\ q == spec_trend s.
Proof.
  destruct s as [|v0 [|v1 l]]; simpl List.length; intros Hlen Hnz;
    try lia.
  destruct (pct_steps_finite v0 (v1 :: l) Hnz) as (qs & E & Hl & Hs).
  unfold trend_of, pct_change, mean. rewrite E.
  change (notna (NaN :: map Fin qs)) with (notna (map Fin qs)).
  rewrite notna_Fin.
  destruct qs as [|q qs]; [discriminate Hl|].
  cbn [map]. change (Fin q :: map Fin qs) with (map Fin (q :: qs)).
  rewrite fsum_Fin, length_map.
  assert (Hn : ~ inject_Z (Z.of_nat (List.length (q :: qs))) == 0).
  { assert (Hpos : 0 < inject_Z (Z.of_nat (List.length (q :: qs)))).
    { change 0 with (inject_Z 0). rewrite <- Zlt_Qlt.
      simpl List.length. lia. }
    intros H0. rewrite H0 in Hpos. exact (Qlt_irrefl 0 Hpos). }
  unfold fdiv.
  destruct (Qeq_bool (inject_Z (Z.of_nat (List.length (q :: qs)))) 0) eqn:Eb;
    [apply Qeq_bool_eq in Eb; contradiction|].
  cbn [fmul]. eexists. split; [reflexivity|].
  unfold spec_trend, qlen. rewrite Hs, Hl. reflexivity.
Qed.

Lemma pct_steps_app (prev : Q) (l1 l2 : list Q) (a : Q) :
  pct_steps prev (l1 ++ a :: l2)
  = pct_steps prev (l1 ++ [a]) ++ pct_steps a l2.
Proof.
  revert prev. induction l1 as [|v l1 IH]; intros prev; simpl.
  - reflexivity.
  - rewrite IH. reflexivity.
Qed.

(** A step from zero to a value that is not zero makes the trend of the
    series infinite or not-a-number: the mean takes the infinity in. *)
Lemma trend_of_zero_prior (s : list Q) :
  zero_prior_step s -> is_finite (trend_of s) = false.
Proof.
  intros (l1 & a & b & l2 & -> & Ha & Hb).
  destruct (pct_step_cases a b) as (_ & _ & Hstep).
  specialize (Hstep Ha Hb).
  set (step := fsub (fdiv (Fin b) (Fin a)) (Fin 1)) in *.
  assert (Hinf : is_finite step = false /\ is_nan step = false)
    by (destruct Hstep as [-> | ->]; split; reflexivity).
  assert (Hin : In step (pct_change (l1 ++ a :: b :: l2))).
  { destruct l1 as [|v0 l1]; simpl.
    - right. left. reflexivity.
    - right. rewrite pct_steps_app. apply in_or_app. right.
      left. reflexivity. }
  unfold trend_of, mean.
  assert (Hin' : In step (notna (pct_change (l1 ++ a :: b :: l2)))).
  { apply filter_In. split; [exact Hin|].
    destruct Hinf as (_ & ->). reflexivity. }
  destruct (notna (pct_change (l1 ++ a :: b :: l2))) as [|x xs] eqn:E;
    [reflexivity|].
  apply fmul_100_not_finite, fdiv_not_finite.
  apply (fsum_not_finite _ _ Hin'), Hinf.
Qed.

(** *** When a trend is finite *)

Lemma notna_finite_values (steps : list float) :
  forallb (fun x => is_finite x || is_nan x) steps = true ->
  notna steps = map Fin (finite_values steps).
Proof.
  unfold notna. induction steps as [|x steps IH]; intros H; [reflexivity|].
  simpl in H. apply andb_true_iff in H. destruct H as (Hx & H).
  destruct x; simpl in *; try discriminate Hx; rewrite (IH H); reflexivity.
Qed.

Lemma finite_values_nil (steps : list float) :
  df_empty (finite_values steps) = negb (existsb is_finite steps).
Proof.
  induction steps as [|x steps IH]; [reflexivity|].
  destruct x; simpl; try exact IH. reflexivity.
Qed.

Lemma forallb_false (A : Type) (p : A -> bool) (l : list A) :
  forallb p l = false -> exists x, In x l /\ p x = false.
Proof.
  induction l as [|x l IH]; intros H; [discriminate H|]. simpl in H.
  destruct (p x) eqn:Hx.
  - destruct (IH H) as (y & Hy & Hpy). exists y. split; [right|]; assumption.
  - exists x. split; [left; reflexivity|exact Hx].
Qed.

(** The mean of the steps, as a percentage, is a number exactly when every
    step is a number or not-a-number and some step is a number. *)
Lemma trend_finite_steps (steps : list float) :
  is_finite (fmul (mean steps) (Fin 100))
  = forallb (fun x => is_finite x || is_nan x) steps
    && existsb is_finite steps.
Proof.
  destruct (forallb (fun x => is_finite x || is_nan x) steps) eqn:Hall.
  - unfold mean. rewrite (notna_finite_values _ Hall).
    pose proof (finite_values_nil steps) as Hnil.
    destruct (finite_values steps) as [|q qs] eqn:Eq.
    + simpl in Hnil. destruct (existsb is_finite steps);
        [discriminate Hnil|reflexivity].
    + simpl in Hnil. destruct (existsb is_finite steps);
        [|discriminate Hnil].
      change (map Fin (q :: qs)) with (Fin q :: map Fin qs).
      cbv iota. change (Fin q :: map Fin qs) with (map Fin (q :: qs)).
      rewrite fsum_Fin, length_map. unfold fdiv.
      destruct (Qeq_bool (inject_Z (Z.of_nat (List.length (q :: qs)))) 0)
        eqn:Eb; [|reflexivity].
      apply Qeq_bool_eq in Eb. exfalso.
      assert (Hpos : 0 < inject_Z (Z.of_nat (List.length (q :: qs)))).
      { change 0 with (inject_Z 0). rewrite <- Zlt_Qlt.
        simpl List.length. lia. }
      rewrite Eb in Hpos. exact (Qlt_irrefl 0 Hpos).
  - destruct (forallb_false _ _ Hall) as (x & Hin & Hx).
    apply orb_false_iff in Hx. destruct Hx as (Hfin & Hnan).
    simpl andb. unfold mean.
    assert (Hin' : In x (notna steps)).
    { apply filter_In. split; [exact Hin|]. rewrite Hnan. reflexivity. }
    destruct (notna steps) as [|y ys] eqn:E; [reflexivity|].
    apply fmul_100_not_finite, fdiv_not_finite.
    exact (fsum_not_finite _ _ Hin' Hfin).
Qed.

(** The steps of a series are numbers or 0/0 exactly when no zero is
    followed by another value, and one of them is a number exactly when
    some prior is not zero. *)
Lemma pct_steps_defined (prev : Q) (l : list Q) :
  forallb (fun x => is_finite x || is_nan x) (pct_steps prev l) = true
  <-> no_step_from_zero prev l.
Proof.
  revert prev. induction l as [|v l IH]; intros prev.
  - split; intros _; [exact I|reflexivity].
  - cbn [pct_steps forallb no_step_from_zero].
    rewrite andb_true_iff, IH.
    destruct (pct_step_cases prev v) as (Hfin & Hnan & Hinf).
    split; intros (H1 & H2); split; try exact H2.
    + intros Hp. destruct (Qeq_dec v 0) as [Hv|Hv]; [exact Hv|].
      destruct (Hinf Hp Hv) as [E|E]; rewrite E in H1; discriminate H1.
    + destruct (Qeq_dec prev 0) as [Hp|Hp].
      * rewrite (Hnan Hp (H1 Hp)). reflexivity.
      * destruct (Hfin Hp) as (q & -> & _). reflexivity.
Qed.

Lemma pct_steps_some_number (prev : Q) (l : list Q) :
  existsb is_finite (pct_steps prev l) = true <-> some_prior_nonzero prev l.
Proof.
  revert prev. induction l as [|v l IH]; intros prev.
  - split; [intros H; discriminate H|intros []].
  - cbn [pct_steps existsb some_prior_nonzero].
    rewrite orb_true_iff, IH.
    destruct (pct_step_cases prev v) as (Hfin & Hnan & Hinf).
    split; (intros [H|H]; [left|right; exact H]).
    + intros Hp. destruct (Qeq_dec v 0) as [Hv|Hv].
      * rewrite (Hnan Hp Hv) in H. discriminate H.
      * destruct (Hinf Hp Hv) as [E|E]; rewrite E in H; discriminate H.
    + destruct (Hfin H) as (q & -> & _). reflexivity.
Qed.

(** The trend reported for a series of [n] months is finite exactly for
    the series described by [finite_series]. *)
Lemma reported_trend_finite_iff (n : Z) (s : list Q) :
  n = Z.of_nat (List.length s) ->
  is_finite (if (2 <=? n)%Z then trend_of s else Fin 0) = true
  <-> finite_series s.
Proof.
  intros ->. destruct s as [|v0 l]; [split; reflexivity|].
  unfold finite_series.
  destruct (Z.leb_spec 2 (Z.of_nat (List.length (v0 :: l)))) as [Hge|Hlt].
  - unfold trend_of. rewrite trend_finite_steps.
    cbn [pct_change forallb existsb is_finite is_nan orb andb].
    rewrite andb_true_iff, pct_steps_defined, pct_steps_some_number.
    split; [intros H; right; exact H|].
    intros [Hlt|H]; [lia|exact H].
  - split; [intros _; left; lia|reflexivity].
Qed.

(** ** The trends *)

Lemma group_sum_absent (rows : list MonthRow) (m : Z) (k : string) :
  ~ In k (map mr_tipo_norm rows) -> group_sum rows m k = 0.
Proof.
  intros Hout. unfold group_sum.
  induction rows as [|r rows IH]; [reflexivity|]. simpl.
  destruct (String.eqb_spec (mr_tipo_norm r) k) as [Heq|Hne].
  - exfalso. apply Hout. left. exact Heq.
  - rewrite andb_false_r. apply IH. intros Hin. apply Hout. right. exact Hin.
Qed.

Lemma combine_same_index (A : Type) (f g : A -> Q) (idx : list A) :
  map (fun p => fst p - snd p) (combine (map f idx) (map g idx))
  = map (fun m => f m - g m) idx.
Proof.
  induction idx as [|m idx IH]; simpl; [reflexivity|].
  rewrite IH. reflexivity.
Qed.

Section TrendProperties.

Context {RT : Runtime}.

Lemma window_column_present (k : string) (w : list (Lancamento * datetime)) :
  (exists p, In p w /\ tipo_norm (tipo (fst p)) = k) ->
  exists s,
    column k (pv_columns
                (groupby_sum_unstack (map (month_row tipo_norm) w))) = Some s.
Proof.
  intros (p & Hp & Hk). rewrite groupby_column.
  destruct (in_dec string_dec k
              (map mr_tipo_norm (map (month_row tipo_norm) w)))
    as [Hin|Hout]; [eexists; reflexivity|].
  exfalso. apply Hout. rewrite map_map. simpl.
  apply in_map_iff. exists p. split; [exact Hk|exact Hp].
Qed.

Lemma window_column_absent (k : string) (w : list (Lancamento * datetime)) :
  (forall p, In p w -> tipo_norm (tipo (fst p)) <> k) ->
  column k (pv_columns (groupby_sum_unstack (map (month_row tipo_norm) w)))
  = None.
Proof.
  intros Hno. rewrite groupby_column.
  destruct (in_dec string_dec k
              (map mr_tipo_norm (map (month_row tipo_norm) w)))
    as [Hin|Hout]; [|reflexivity].
  exfalso. rewrite map_map in Hin. apply in_map_iff in Hin.
  destruct Hin as (p & Hk & Hp). exact (Hno p Hp Hk).
Qed.

(** With a column of one of the two kinds the second half returns. *)
Lemma trends_of_monthly_ok (monthly : Pivot) :
  (exists s, column "entrada" (pv_columns monthly) = Some s)
  \/ (exists s, column "saída" (pv_columns monthly) = Some s) ->
  trends_of_monthly monthly
  = Ok {| trend_entradas :=
            match column "entrada" (pv_columns monthly) with
            | Some s => if (2 <=? pv_len monthly)%Z then trend_of s else Fin 0
            | None => Fin 0
            end;
          trend_saidas :=
            match column "saída" (pv_columns monthly) with
            | Some s => if (2 <=? pv_len monthly)%Z then trend_of s else Fin 0
            | None => Fin 0
            end;
          trend_saldo :=
            if (2 <=? Z.of_nat (List.length (saldo_series monthly)))%Z
            then trend_of (saldo_series monthly) else Fin 0 |}.
Proof.
  intros H. unfold trends_of_monthly, saldo_series, pv_get.
  destruct (column "entrada" (pv_columns monthly)) as [se|] eqn:Ee;
    destruct (column "saída" (pv_columns monthly)) as [ss|] eqn:Es;
    try reflexivity.
  destruct H as [(s & H)|(s & H)]; discriminate H.
Qed.

(** Without a column of either kind it raises: the balance series is then
    the integer [0 - 0], which has no length. *)
Lemma trends_of_monthly_raise (monthly : Pivot) :
  column "entrada" (pv_columns monthly) = None ->
  column "saída" (pv_columns monthly) = None ->
  trends_of_monthly monthly = Raise TypeError.
Proof.
  intros He Hs. unfold trends_of_monthly, pv_get. rewrite He, Hs.
  reflexivity.
Qed.

Lemma calcular_trends_window (now : datetime) (df : DataFrame) (periodo : Z) :
  calcular_trends now df periodo
  = match janela now periodo df with
    | [] => Ok zero_trends
    | w => trends_of_monthly
             (groupby_sum_unstack (map (month_row tipo_norm) w))
    end.
Proof.
  unfold calcular_trends. destruct df as [|r df]; [reflexivity|].
  simpl df_empty. destruct (janela now periodo (r :: df)); reflexivity.
Qed.

Lemma trends_of_monthly_finite_iff (rows : list MonthRow) :
  let monthly := groupby_sum_unstack rows in
  (exists s, column "entrada" (pv_columns monthly) = Some s)
  \/ (exists s, column "saída" (pv_columns monthly) = Some s) ->
  exists t,
    trends_of_monthly monthly = Ok t
    /\ (is_finite (trend_entradas t) = true
        <-> finite_series (series_of "entrada" monthly))
    /\ (is_finite (trend_saidas t) = true
        <-> finite_series (series_of "saída" monthly))
    /\ (is_finite (trend_saldo t) = true
        <-> finite_series (saldo_series monthly)).
Proof.
  intros monthly Hcol.
  rewrite (trends_of_monthly_ok _ Hcol).
  eexists. split; [reflexivity|].
  cbn [trend_entradas trend_saidas trend_saldo]. unfold series_of.
  repeat split.
  - destruct (column "entrada" (pv_columns monthly)) as [s|] eqn:E;
      [|reflexivity].
    apply reported_trend_finite_iff.
    unfold pv_len. f_equal. symmetry. exact (groupby_column_length _ _ E).
  - destruct (column "entrada" (pv_columns monthly)) as [s|] eqn:E;
      [|reflexivity].
    apply reported_trend_finite_iff.
    unfold pv_len. f_equal. symmetry. exact (groupby_column_length _ _ E).
  - destruct (column "saída" (pv_columns monthly)) as [s|] eqn:E;
      [|reflexivity].
    apply reported_trend_finite_iff.
    unfold pv_len. f_equal. symmetry. exact (groupby_column_length _ _ E).
  - destruct (column "saída" (pv_columns monthly)) as [s|] eqn:E;
      [|reflexivity].
    apply reported_trend_finite_iff.
    unfold pv_len. f_equal. symmetry. exact (groupby_column_length _ _ E).
  - apply reported_trend_finite_iff. reflexivity.
  - apply reported_trend_finite_iff. reflexivity.
Qed.

(** C1, amended: when the window is empty or has a row of one of the two
    kinds, [calcular_trends] returns, and each of its three trends is finite
    exactly when the monthly series it comes from has fewer than two months
    or has no zero month followed by a month that is not zero and has some
    month, with a successor, that is not zero.  A step from zero to zero is
    not-a-number and the mean leaves it out; a step from zero to another
    value is an infinity that the mean takes in, and the trend of such a
    series is not finite. *)
Theorem trends_finite_iff_no_infinite_step (now : datetime) (df : DataFrame)
        (periodo : Z) :
  let w := janela now periodo df in
  let monthly := groupby_sum_unstack (map (month_row tipo_norm) w) in
  (w = [] \/ some_known_kind w ->
   exists t,
     calcular_trends now df periodo = Ok t
     /\ (is_finite (trend_entradas t) = true
         <-> finite_series (series_of "entrada" monthly))
     /\ (is_finite (trend_saidas t) = true
         <-> finite_series (series_of "saída" monthly))
     /\ (is_finite (trend_saldo t) = true
         <-> finite_series (saldo_series monthly)))
  /\ (forall a b : Q,
        a == 0 -> b == 0 -> fsub (fdiv (Fin b) (Fin a)) (Fin 1) = NaN)
  /\ (forall l1 l2 : list float, mean (l1 ++ NaN :: l2) = mean (l1 ++ l2))
  /\ (forall s : list Q,
        zero_prior_step s -> is_finite (trend_of s) = false).
Proof.
  intros w monthly. split; [|split; [|split]].
  - intros Hret. rewrite calcular_trends_window. fold w.
    destruct Hret as [Hnil|Hk].
    { subst monthly. rewrite Hnil. exists zero_trends.
      repeat split; reflexivity. }
    assert (Hmon : exists t,
               trends_of_monthly monthly = Ok t
               /\ (is_finite (trend_entradas t) = true
                   <-> finite_series (series_of "entrada" monthly))
               /\ (is_finite (trend_saidas t) = true
                   <-> finite_series (series_of "saída" monthly))
               /\ (is_finite (trend_saldo t) = true
                   <-> finite_series (saldo_series monthly))).
    { apply trends_of_monthly_finite_iff.
      destruct Hk as (p & Hp & [Hk|Hk]); [left|right];
        apply window_column_present; exists p; split; assumption. }
    destruct w as [|p0 w0]; [|exact Hmon].
    destruct Hk as (p & [] & _).
  - intros a b Ha Hb. destruct (pct_step_cases a b) as (_ & H & _).
    exact (H Ha Hb).
  - exact mean_skips_nan.
  - exact trend_of_zero_prior.
Qed.

(** With a row of one of the two kinds in the window the code reports
    what C6 describes: each trend is the trend of the monthly series of the
    kind when the kind is present and the window has two months or more, and
    0 otherwise, and the series of the balance is inflow minus outflow month
    by month, an absent kind counting as zero. *)
Lemma calcular_trends_reports (now : datetime) (df : DataFrame)
      (periodo : Z) :
  let w := janela now periodo df in
  let rows := map (month_row tipo_norm) w in
  let monthly := groupby_sum_unstack rows in
  some_known_kind w ->
  saldo_series monthly
  = map (fun m => group_sum rows m "entrada" - group_sum rows m "saída")
        (pv_index monthly)
  /\ calcular_trends now df periodo
     = Ok {| trend_entradas :=
               match column "entrada" (pv_columns monthly) with
               | Some s =>
                   if (2 <=? pv_len monthly)%Z then trend_of s else Fin 0
               | None => Fin 0
               end;
             trend_saidas :=
               match column "saída" (pv_columns monthly) with
               | Some s =>
                   if (2 <=? pv_len monthly)%Z then trend_of s else Fin 0
               | None => Fin 0
               end;
             trend_saldo :=
               if (2 <=? pv_len monthly)%Z
               then trend_of (saldo_series monthly) else Fin 0 |}.
Proof.
  intros w rows monthly Hk.
  assert (Hcol : (exists s, column "entrada" (pv_columns monthly) = Some s)
                 \/ (exists s, column "saída" (pv_columns monthly) = Some s)).
  { destruct Hk as (p & Hp & [Hk|Hk]); [left|right];
      apply window_column_present; exists p; split; assumption. }
  assert (Hser : saldo_series monthly
                 = map (fun m => group_sum rows m "entrada"
                                 - group_sum rows m "saída")
                       (pv_index monthly)).
  { unfold saldo_series, pv_get. unfold monthly at 1 2.
    rewrite !groupby_column. fold monthly.
    destruct (in_dec string_dec "entrada"%string (map mr_tipo_norm rows))
      as [He|He];
      destruct (in_dec string_dec "saída"%string (map mr_tipo_norm rows))
        as [Hs|Hs]; simpl.
    - rewrite combine_same_index. reflexivity.
    - rewrite map_map. apply map_ext. intros m.
      rewrite (group_sum_absent rows m _ Hs). reflexivity.
    - rewrite map_map. apply map_ext. intros m.
      rewrite (group_sum_absent rows m _ He). reflexivity.
    - exfalso. unfold monthly in Hcol. rewrite !groupby_column in Hcol.
      destruct (in_dec string_dec "entrada"%string (map mr_tipo_norm rows));
        [contradiction|].
      destruct (in_dec string_dec "saída"%string (map mr_tipo_norm rows));
        [contradiction|].
      destruct Hcol as [(s & H)|(s & H)]; discriminate H. }
  split; [exact Hser|].
  rewrite calcular_trends_window. fold w.
  destruct w as [|p0 w0] eqn:Ew; [destruct Hk as (p & [] & _)|].
  fold rows. fold monthly. rewrite (trends_of_monthly_ok _ Hcol).
  do 2 f_equal. rewrite Hser, length_map. reflexivity.
Qed.

(** The general form of the departure: a window with rows, none of them
    of one of the two kinds, makes [calcular_trends] raise. *)
Lemma trends_raise_without_known_kind (now : datetime) (df : DataFrame)
      (periodo : Z) :
  janela now periodo df <> [] ->
  no_known_kind (janela now periodo df) ->
  calcular_trends now df periodo = Raise TypeError.
Proof.
  intros Hne Hno. rewrite calcular_trends_window.
  destruct (janela now periodo df) as [|p0 w0] eqn:Ew; [contradiction|].
  apply trends_of_monthly_raise; apply window_column_absent;
    intros p Hp; apply (Hno p Hp).
Qed.

End TrendProperties.

Lemma trends_finite_iff_no_infinite_step_witness :
  let RT := PyRuntime.runtime in
  let now := mk_datetime 2024 3 1 0 in
  let monthly :=
    groupby_sum_unstack (map (month_row tipo_norm) (janela now 6 acme)) in
  exists t,
    calcular_trends now acme 6 = Ok t
    /\ (is_finite (trend_entradas t) = true
        <-> finite_series (series_of "entrada" monthly))
    /\ (is_finite (trend_saidas t) = true
        <-> finite_series (series_of "saída" monthly))
    /\ (is_finite (trend_saldo t) = true
        <-> finite_series (saldo_series monthly)).
Proof.
  intros RT now monthly.
  apply (proj1 (@trends_finite_iff_no_infinite_step RT now acme 6)).
  right. exists (lanc 4 "2024-02-15" "Saída" 500, mk_datetime 2024 2 15 0).
  split; [left; reflexivity|right; reflexivity].
Defined.

(** C1 as stated fails: a month without inflow followed by a month with
    inflow gives an infinite inflow trend. *)
Lemma trends_infinite_counterexample :
  let RT := PyRuntime.runtime in
  let df := [lanc 3 "2024-02-15" "Saída" 50;
             lanc 2 "2024-02-10" "Entrada" 100;
             lanc 1 "2024-01-05" "Saída" 400] in
  exists t, calcular_trends (mk_datetime 2024 3 1 0) df 6 = Ok t
            /\ trend_entradas t = PInf.
Proof.
  intros RT df. eexists. split; [vm_compute; reflexivity|reflexivity].
Qed.

(** C6, where the code departs from it: a window whose only row is of
    another kind has fewer than two monthly buckets and neither of the two
    kinds, so the three trends should be reported as 0; instead
    [calcular_trends] raises [TypeError], from [len] of the integer
    [0 - 0]. *)
Theorem trends_raise_on_unknown_kind :
  calcular_trends (RT := PyRuntime.runtime) (mk_datetime 2024 3 1 0)
                  [lanc 1 "2024-01-05" "Transferência" 400] 6
  = Raise TypeError.
Proof.
  apply trends_raise_without_known_kind.
  - vm_compute. intros H. discriminate H.
  - intros p [<-|[]]. vm_compute. split; intros H; discriminate H.
Qed.

(** ** The methods leave their input alone *)

Lemma nth_error_last (A : Type) (l : list A) (x : A) :
  nth_error (l ++ [x]) (List.length l) = Some x.
Proof.
  rewrite nth_error_app2 by apply Nat.le_refl.
  rewrite Nat.sub_diag. reflexivity.
Qed.

Lemma update_last (A : Type) (l : list A) (x : A) (g : A -> A) :
  Store.update (l ++ [x]) (List.length l) g = l ++ [g x].
Proof.
  induction l as [|y l IH]; simpl; [reflexivity|]. rewrite IH. reflexivity.
Qed.

Lemma nth_error_grow (A : Type) (l extra : list A) (r : nat) (x : A) :
  nth_error l r = Some x -> nth_error (l ++ extra) r = Some x.
Proof.
  intros H. rewrite nth_error_app1; [exact H|].
  apply nth_error_Some. rewrite H. discriminate.
Qed.

Lemma preserved_grow (s : Store.State) (extra : list Store.Frame) :
  preserved s {| Store.frames := Store.frames s ++ extra;
                 Store.manager := Store.manager s |}.
Proof.
  split; [reflexivity|]. intros r f H. simpl. apply nth_error_grow, H.
Qed.

Section StoreProperties.

Context {RT : Runtime}.

(** A selection whose test reads cells that are there keeps the rows the
    test accepts. *)
Lemma select_total (keep : Store.Row -> result bool)
      (kb : Store.Row -> bool) (f : Store.Frame) :
  (forall row, In row f -> keep row = Ok (kb row)) ->
  Store.select keep f = Ok (filter kb f).
Proof.
  induction f as [|row f IH]; intros H; simpl; [reflexivity|].
  rewrite (H row) by (left; reflexivity). simpl.
  rewrite IH by (intros row' Hr; apply H; right; exact Hr).
  reflexivity.
Qed.

Lemma sum_where_tipo_norm (k : string) (f : Store.Frame) :
  Store.sum_where k (map with_tipo_norm f)
  = Ok (sum_tipo k (Store.rows_of f)).
Proof.
  unfold sum_tipo, Store.rows_of.
  induction f as [|row f IH]; simpl; [reflexivity|].
  rewrite IH. simpl.
  destruct (String.eqb (tipo_norm (tipo (Store.base row))) k); reflexivity.
Qed.

Lemma trend_frame_rows (now : datetime) (periodo : Z) (f : Store.Frame) :
  Store.rows_of (trend_frame (minus_days now (periodo * 30)) f)
  = map fst (janela now periodo (Store.rows_of f)).
Proof.
  unfold trend_frame, janela, Store.rows_of.
  induction f as [|row f IH]; simpl; [reflexivity|].
  unfold has_date at 1. simpl.
  destruct (to_datetime (data (Store.base row))) as [t|] eqn:Et; simpl;
    [|exact IH].
  unfold since at 1. simpl. rewrite Et.
  destruct (minus_days now (periodo * 30) <=? instant t)%Z; simpl;
    [f_equal; exact IH|exact IH].
Qed.

Lemma trend_frame_dated (data_corte : Z) (f : Store.Frame) (row : Store.Row) :
  In row (trend_frame data_corte f) ->
  exists t, Store.data_dt row = Some (Some t).
Proof.
  unfold trend_frame. intros H.
  apply filter_In in H. destruct H as (H & _).
  apply filter_In in H. destruct H as (_ & H).
  unfold has_date in H.
  destruct (Store.data_dt row) as [[t|]|]; try discriminate H.
  exists t. reflexivity.
Qed.

Lemma month_rows_trend_frame (now : datetime) (periodo : Z)
      (f : Store.Frame) :
  Store.month_rows
    (map with_tipo_norm
         (map with_mes (trend_frame (minus_days now (periodo * 30)) f)))
  = Ok (map (month_row tipo_norm) (janela now periodo (Store.rows_of f))).
Proof.
  unfold trend_frame, janela, Store.rows_of.
  induction f as [|row f IH]; simpl; [reflexivity|].
  unfold has_date at 1. simpl.
  destruct (to_datetime (data (Store.base row))) as [t|] eqn:Et; simpl;
    [|exact IH].
  unfold since at 1. simpl. rewrite Et.
  destruct (minus_days now (periodo * 30) <=? instant t)%Z; simpl;
    [|exact IH].
  rewrite Et. simpl. rewrite IH. reflexivity.
Qed.

Lemma bind_done (A B : Type) (m : Store.M A) (k : A -> Store.M B)
      (s s' : Store.State) (a : A) :
  m s = Store.Done a s' -> Store.bindM m k s = k a s'.
Proof. intros H. unfold Store.bindM. rewrite H. reflexivity. Qed.
Arguments bind_done [A B m] k [s s' a] _.

Lemma run_load_last (l : list Store.Frame) (f : Store.Frame) (m : string) :
  Store.load (List.length l) (Store.mk_state (l ++ [f]) m)
  = Store.Done f (Store.mk_state (l ++ [f]) m).
Proof. unfold Store.load. simpl. rewrite nth_error_last. reflexivity. Qed.

Lemma run_modify_last (l : list Store.Frame) (f : Store.Frame) (m : string)
      (g : Store.Frame -> Store.Frame) :
  Store.modify (List.length l) g (Store.mk_state (l ++ [f]) m)
  = Store.Done tt (Store.mk_state (l ++ [g f]) m).
Proof.
  unfold Store.modify. simpl. rewrite nth_error_last, update_last.
  reflexivity.
Qed.

Lemma run_copy (s : Store.State) (df : Store.ref) (f : Store.Frame) :
  nth_error (Store.frames s) df = Some f ->
  Store.copy df s
  = Store.Done (List.length (Store.frames s))
               (Store.mk_state (Store.frames s ++ [f]) (Store.manager s)).
Proof.
  intros H. unfold Store.copy, Store.bindM, Store.load. rewrite H.
  reflexivity.
Qed.

(** A selection on the last frame allocates what it keeps. *)
Lemma run_select_last (l : list Store.Frame) (f : Store.Frame) (m : string)
      (keep : Store.Row -> result bool) (kb : Store.Row -> bool) :
  (forall row, In row f -> keep row = Ok (kb row)) ->
  Store.bindM (Store.load (List.length l))
    (fun f0 => Store.bindM (Store.lift (Store.select keep f0)) Store.alloc)
    (Store.mk_state (l ++ [f]) m)
  = Store.Done (List.length (l ++ [f]))
               (Store.mk_state ((l ++ [f]) ++ [filter kb f]) m).
Proof.
  intros H. rewrite (bind_done _ (run_load_last l f m)).
  unfold Store.bindM, Store.lift.
  rewrite select_total with (kb := kb) by exact H. reflexivity.
Qed.

Lemma run_dropna_last (l : list Store.Frame) (f : Store.Frame) (m : string) :
  Store.dropna (List.length l) (Store.mk_state (l ++ [map with_data_dt f]) m)
  = Store.Done
      (List.length (l ++ [map with_data_dt f]))
      (Store.mk_state
         ((l ++ [map with_data_dt f])
          ++ [filter has_date (map with_data_dt f)]) m).
Proof.
  unfold Store.dropna. apply run_select_last.
  intros r Hr. apply in_map_iff in Hr. destruct Hr as (r0 & <- & _).
  reflexivity.
Qed.

Lemma run_select_since_last (l : list Store.Frame) (f : Store.Frame)
      (m : string) (data_corte : Z) :
  (forall row, In row f -> has_date row = true) ->
  Store.select_since (List.length l) data_corte (Store.mk_state (l ++ [f]) m)
  = Store.Done (List.length (l ++ [f]))
               (Store.mk_state ((l ++ [f]) ++ [filter (since data_corte) f])
                               m).
Proof.
  intros H. unfold Store.select_since. apply run_select_last.
  intros r Hr. specialize (H r Hr). unfold has_date in H. unfold since.
  destruct (Store.data_dt r) as [[t|]|]; try discriminate H; reflexivity.
Qed.

Lemma run_set_mes_last (l : list Store.Frame) (f : Store.Frame)
      (m : string) :
  (forall row, In row f -> has_date row = true) ->
  Store.set_mes (List.length l) (Store.mk_state (l ++ [f]) m)
  = Store.Done tt (Store.mk_state (l ++ [map with_mes f]) m).
Proof.
  intros H. unfold Store.set_mes.
  rewrite (bind_done _ (run_load_last l f m)).
  unfold Store.lift at 1. unfold Store.bindM at 1.
  rewrite select_total with (kb := fun _ => true).
  - apply run_modify_last.
  - intros r Hr. specialize (H r Hr). unfold has_date in H.
    destruct (Store.data_dt r) as [[t|]|]; try discriminate H; reflexivity.
Qed.

Lemma kpis_in_store (s : Store.State) (df : Store.ref) (f : Store.Frame) :
  nth_error (Store.frames s) df = Some f ->
  exists s', Store.calcular_kpis df s
             = Store.Done (calcular_kpis (Store.rows_of f)) s'
             /\ preserved s s'.
Proof.
  intros H. unfold Store.calcular_kpis.
  rewrite (bind_done (m := Store.load df) _ (s := s) (s' := s) (a := f))
    by (unfold Store.load; rewrite H; reflexivity).
  assert (Hempty : df_empty (Store.rows_of f) = df_empty f)
    by (destruct f; reflexivity).
  destruct (df_empty f) eqn:Ef.
  - exists s. split.
    + unfold calcular_kpis. rewrite Hempty. reflexivity.
    + split; [reflexivity|]. intros r g Hr. exact Hr.
  - rewrite (bind_done _ (run_copy s df H)).
    unfold Store.set_tipo_norm.
    rewrite (bind_done _ (run_modify_last _ _ _ _)).
    rewrite (bind_done _ (run_load_last _ _ _)).
    change (map _ f) with (map with_tipo_norm f).
    unfold Store.lift at 1. unfold Store.bindM at 1.
    rewrite sum_where_tipo_norm.
    unfold Store.lift at 1. unfold Store.bindM at 1.
    rewrite sum_where_tipo_norm.
    eexists. split.
    + unfold Store.ret. f_equal. unfold calcular_kpis. rewrite Hempty.
      unfold Store.rows_of. rewrite !length_map. reflexivity.
    + split; [reflexivity|]. intros r g Hr. simpl.
      apply nth_error_grow, Hr.
Qed.

Lemma trends_in_store (s : Store.State) (df : Store.ref) (f : Store.Frame)
      (now : datetime) (periodo : Z) :
  nth_error (Store.frames s) df = Some f ->
  exists s',
    preserved s s'
    /\ Store.calcular_trends now df periodo s
       = match calcular_trends now (Store.rows_of f) periodo with
         | Ok t => Store.Done t s'
         | Raise e => Store.Raised e s'
         end.
Proof.
  intros H. unfold Store.calcular_trends.
  rewrite (bind_done (m := Store.load df) _ (s := s) (s' := s) (a := f))
    by (unfold Store.load; rewrite H; reflexivity).
  rewrite calcular_trends_window.
  destruct (df_empty f) eqn:Ef.
  - exists s. split.
    + split; [reflexivity|]. intros r g Hr. exact Hr.
    + destruct f; [reflexivity|discriminate Ef].
  - rewrite (bind_done _ (run_copy s df H)).
    unfold Store.set_data_dt.
    rewrite (bind_done _ (run_modify_last _ _ _ _)).
    change (map _ f) with (map with_data_dt f).
    rewrite (bind_done _ (run_dropna_last _ _ _)).
    assert (Hdated : forall row,
               In row (filter has_date (map with_data_dt f)) ->
               has_date row = true)
      by (intros r Hr; apply filter_In in Hr; apply Hr).
    rewrite (bind_done _ (run_select_since_last _ _ _
                            (minus_days now (periodo * 30)) Hdated)).
    fold (trend_frame (minus_days now (periodo * 30)) f).
    pose proof (trend_frame_rows now periodo f) as Hrows.
    pose proof (month_rows_trend_frame now periodo f) as Hmonth.
    assert (Hdated3 : forall row,
               In row (trend_frame (minus_days now (periodo * 30)) f) ->
               has_date row = true).
    { intros r Hr. unfold trend_frame in Hr. apply filter_In in Hr.
      apply Hdated, Hr. }
    set (F3 := trend_frame (minus_days now (periodo * 30)) f) in *.
    set (l2 := (Store.frames s ++ [map with_data_dt f])
               ++ [filter has_date (map with_data_dt f)]).
    rewrite (bind_done _ (run_load_last l2 F3 _)).
    assert (Hpres : forall F,
               preserved s (Store.mk_state (l2 ++ [F]) (Store.manager s))).
    { intros F. unfold l2. rewrite <- !app_assoc. apply preserved_grow. }
    destruct (df_empty F3) eqn:E3.
    + exists (Store.mk_state (l2 ++ [F3]) (Store.manager s)).
      split; [apply Hpres|].
      destruct F3; [|discriminate E3].
      destruct (janela now periodo (Store.rows_of f));
        [reflexivity|discriminate Hrows].
    + rewrite (bind_done _ (run_set_mes_last l2 F3 _ Hdated3)).
      unfold Store.set_tipo_norm.
      rewrite (bind_done _ (run_modify_last _ _ _ _)).
      change (map _ (map with_mes F3))
        with (map with_tipo_norm (map with_mes F3)).
      rewrite (bind_done _ (run_load_last _ _ _)).
      unfold Store.lift at 1. unfold Store.bindM at 1. rewrite Hmonth.
      eexists. split; [apply Hpres|].
      destruct (janela now periodo (Store.rows_of f)) as [|p w] eqn:Ew.
      { destruct F3; [discriminate E3|discriminate Hrows]. }
      unfold Store.lift.
      destruct (trends_of_monthly
                  (groupby_sum_unstack
                     (map (month_row tipo_norm) (p :: w)))); reflexivity.
Qed.

(** C9: a call of [calcular_kpis] or of [calcular_trends] on a frame of the
    store returns what the function of the rows of that frame gives, and
    leaves as they were the frame it was given, every other frame the store
    held, and the attribute of the engine: the work is done on copies, and
    nothing is kept from one call to the next. *)
Theorem analytics_leave_store_unchanged (s : Store.State) (df : Store.ref)
        (f : Store.Frame) :
  nth_error (Store.frames s) df = Some f ->
  (exists s', Store.calcular_kpis df s
              = Store.Done (calcular_kpis (Store.rows_of f)) s'
              /\ preserved s s')
  /\ (forall (now : datetime) (periodo : Z),
        exists s',
          preserved s s'
          /\ Store.calcular_trends now df periodo s
             = match calcular_trends now (Store.rows_of f) periodo with
               | Ok t => Store.Done t s'
               | Raise e => Store.Raised e s'
               end).
Proof.
  intros H. split.
  - exact (kpis_in_store s df H).
  - intros now periodo. exact (trends_in_store s df now periodo H).
Qed.


End StoreProperties.

Lemma analytics_leave_store_unchanged_witness :
  let RT := PyRuntime.runtime in
  let f := Store.frame_of [lanc 2 "2024-02-10" "Entrada" 1100;
                           lanc 1 "2024-01-05" "Entrada" 1000] in
  let s := Store.mk_state [f] "fluxo_pro.db" in
  (exists s', Store.calcular_kpis 0%nat s
              = Store.Done (calcular_kpis (Store.rows_of f)) s'
              /\ preserved s s')
  /\ (forall (now : datetime) (periodo : Z),
        exists s',
          preserved s s'
          /\ Store.calcular_trends now 0%nat periodo s
             = match calcular_trends now (Store.rows_of f) periodo with
               | Ok t => Store.Done t s'
               | Raise e => Store.Raised e s'
               end).
Proof.
  intros RT f s.
  apply (@analytics_leave_store_unchanged RT s 0%nat f). reflexivity.
Defined.

(** ** The scenarios of the specification, evaluated *)

Module Scenarios.

Import PyRuntime.

Example acme_kpis :
  calcular_kpis acme
  = {| entradas := 2100; saidas := 900; saldo := 1200;
       total_lancamentos := 4 |}.
Proof. reflexivity. Qed.

(** January 2024 is month 648 since January 1970. *)
Example acme_monthly :
  groupby_sum_unstack (map (month_row tipo_norm) (dropna_data_dt acme))
  = {| pv_index := [648; 649]%Z;
       pv_columns := [("entrada"%string, [1000; 1100]);
                      ("saída"%string, [400; 500])] |}.
Proof. reflexivity. Qed.

Example acme_trends :
  exists a b c,
    calcular_trends (mk_datetime 2024 3 1 0) acme 6
    = Ok {| trend_entradas := Fin a; trend_saidas := Fin b;
            trend_saldo := Fin c |}
    /\ a == 10 /\ b == 25 /\ c == 0.
Proof.
  do 3 eexists. split; [vm_compute; reflexivity|]. repeat split; reflexivity.
Qed.

(** A falling series is projected down to zero, not below. *)
Example falling_series_is_clamped :
  exists p1 p2,
    page_previsoes [lanc 2 "2024-02-10" "entrada" 200;
                    lanc 1 "2024-01-05" "entrada" 1000] 2
    = Projecoes [p1; p2]
    /\ entradas_proj p1 = 0 /\ entradas_proj p2 = 0.
Proof. do 2 eexists. split; [vm_compute; reflexivity|]. split; reflexivity. Qed.

(** Kinds are compared after trimming and lower-casing. *)
Example kinds_are_normalised :
  entradas (calcular_kpis [lanc 1 "2024-01-05" "Entrada " 10;
                           lanc 2 "2024-01-06" "ENTRADA" 20;
                           lanc 3 "2024-01-07" " SAÍDA" 5])
  = 30.
Proof. reflexivity. Qed.

End Scenarios.

(** * The rest of the module: properties *)

(** ** The order of texts *)

Lemma string_compare_refl (s : string) : String.compare s s = Eq.
Proof.
  induction s as [|a s IH]; simpl; [reflexivity|].
  unfold Ascii.compare. rewrite N.compare_refl. exact IH.
Qed.

Lemma string_compare_lt_trans (s1 s2 s3 : string) :
  String.compare s1 s2 = Lt -> String.compare s2 s3 = Lt ->
  String.compare s1 s3 = Lt.
Proof.
  revert s2 s3. induction s1 as [|a s1 IH]; intros [|b s2] [|c s3]; simpl;
    intros H12 H23; try discriminate; try reflexivity.
  destruct (Ascii.compare a b) eqn:Eab; try discriminate H12.
  - apply Ascii.compare_eq_iff in Eab. subst b.
    destruct (Ascii.compare a c); try discriminate H23;
      [exact (IH _ _ H12 H23)|reflexivity].
  - destruct (Ascii.compare b c) eqn:Ebc; try discriminate H23.
    + apply Ascii.compare_eq_iff in Ebc. subst c. rewrite Eab. reflexivity.
    + unfold Ascii.compare in *. rewrite N.compare_lt_iff in *.
      assert (Hac : (N_of_ascii a < N_of_ascii c)%N)
        by (eapply N.lt_trans; eassumption).
      apply N.compare_lt_iff in Hac. rewrite Hac. reflexivity.
Qed.

Lemma string_compare_eq (s1 s2 : string) :
  String.compare s1 s2 = Eq <-> s1 = s2.
Proof.
  split; [apply String.compare_eq_iff|].
  intros ->. apply string_compare_refl.
Qed.

Lemma string_ltb_lt (s1 s2 : string) :
  String.ltb s1 s2 = true <-> String.compare s1 s2 = Lt.
Proof.
  unfold String.ltb. destruct (String.compare s1 s2); split; intros H;
    try reflexivity; discriminate H.
Qed.

Lemma string_leb_trans (s1 s2 s3 : string) :
  String.leb s1 s2 = true -> String.leb s2 s3 = true ->
  String.leb s1 s3 = true.
Proof.
  unfold String.leb.
  destruct (String.compare s1 s2) eqn:E12; intros H12; try discriminate H12;
    destruct (String.compare s2 s3) eqn:E23; intros H23;
    try discriminate H23.
  - apply string_compare_eq in E12, E23. subst.
    rewrite string_compare_refl. reflexivity.
  - apply string_compare_eq in E12. subst. rewrite E23. reflexivity.
  - apply string_compare_eq in E23. subst. rewrite E12. reflexivity.
  - rewrite (string_compare_lt_trans _ _ _ E12 E23). reflexivity.
Qed.

Lemma string_leb_total (s1 s2 : string) :
  String.leb s1 s2 = false -> String.leb s2 s1 = true.
Proof.
  intros H. destruct (String.leb_total s1 s2) as [H'|H']; [|exact H'].
  rewrite H in H'. discriminate H'.
Qed.

(** ** Insertion sort sorts *)

Section SortSorted.

Variable A : Type.
Variable before : A -> A -> bool.
Hypothesis before_total : forall x y, before x y = false -> before y x = true.
Hypothesis before_trans :
  forall x y z, before x y = true -> before y z = true -> before x z = true.

Lemma insert_sorted_In (x z : A) (l : list A) :
  In z (insert_sorted before x l) <-> z = x \/ In z l.
Proof.
  split; intros H.
  - apply (Permutation_in _ (Permutation_sym (insert_sorted_perm before x l)))
      in H.
    destruct H as [H|H]; [left; symmetry; exact H|right; exact H].
  - apply (Permutation_in _ (insert_sorted_perm before x l)).
    destruct H as [H|H]; [left; symmetry; exact H|right; exact H].
Qed.

Lemma insert_sorted_sorted (x : A) (l : list A) :
  StronglySorted (fun a b => before a b = true) l ->
  StronglySorted (fun a b => before a b = true) (insert_sorted before x l).
Proof.
  induction 1 as [|y l Hs IH Hall]; simpl.
  - constructor; constructor.
  - destruct (before x y) eqn:Hxy.
    + constructor; [constructor; assumption|].
      constructor; [exact Hxy|].
      rewrite Forall_forall in *. intros z Hz.
      eapply before_trans; [exact Hxy|exact (Hall z Hz)].
    + constructor; [exact IH|].
      rewrite Forall_forall in *. intros z Hz.
      apply insert_sorted_In in Hz. destruct Hz as [->|Hz].
      * apply before_total, Hxy.
      * apply Hall, Hz.
Qed.

Lemma isort_sorted (l : list A) :
  StronglySorted (fun a b => before a b = true) (isort before l).
Proof.
  induction l as [|x l IH]; simpl; [constructor|].
  apply insert_sorted_sorted, IH.
Qed.

End SortSorted.

Lemma StronglySorted_map (A B : Type) (R : A -> A -> Prop)
      (S : B -> B -> Prop) (f : A -> B) (l : list A) :
  (forall a b, R a b -> S (f a) (f b)) ->
  StronglySorted R l -> StronglySorted S (map f l).
Proof.
  intros HRS. induction 1 as [|x l Hs IH Hall]; simpl; constructor.
  - exact IH.
  - rewrite Forall_forall in *. intros y Hy.
    apply in_map_iff in Hy. destruct Hy as (a & <- & Ha).
    apply HRS, Hall, Ha.
Qed.

(** ** What [read_lancamentos] returns *)

Lemma order_by_compare (a b : DbRow) :
  order_by a b
  = match String.compare (db_data b) (db_data a) with
    | Lt => true
    | Eq => (db_id b <=? db_id a)%Z
    | Gt => false
    end.
Proof.
  unfold order_by, String.ltb.
  destruct (String.compare (db_data b) (db_data a)) eqn:E; simpl.
  - apply string_compare_eq in E. rewrite E, String.eqb_refl. reflexivity.
  - reflexivity.
  - destruct (String.eqb_spec (db_data a) (db_data b)) as [Heq|_];
      [|reflexivity].
    rewrite Heq, string_compare_refl in E. discriminate E.
Qed.

Lemma order_by_total (a b : DbRow) :
  order_by a b = false -> order_by b a = true.
Proof.
  rewrite !order_by_compare, (String.compare_antisym (db_data a) (db_data b)).
  destruct (String.compare (db_data b) (db_data a)); simpl; intros H;
    try reflexivity; try discriminate H.
  apply Z.leb_le. apply Z.leb_gt in H. lia.
Qed.

Lemma order_by_trans (a b c : DbRow) :
  order_by a b = true -> order_by b c = true -> order_by a c = true.
Proof.
  rewrite !order_by_compare.
  destruct (String.compare (db_data b) (db_data a)) eqn:Eba; intros Hab;
    try discriminate Hab;
    destruct (String.compare (db_data c) (db_data b)) eqn:Ecb; intros Hbc;
    try discriminate Hbc.
  - apply string_compare_eq in Eba, Ecb. rewrite Ecb, Eba.
    rewrite string_compare_refl. apply Z.leb_le.
    apply Z.leb_le in Hab, Hbc. lia.
  - apply string_compare_eq in Eba. rewrite <- Eba, Ecb. reflexivity.
  - apply string_compare_eq in Ecb. rewrite Ecb, Eba. reflexivity.
  - rewrite (string_compare_lt_trans _ _ _ Ecb Eba). reflexivity.
Qed.

Lemma filter_all (A : Type) (p : A -> bool) (l : list A) :
  (forall x, In x l -> p x = true) -> filter p l = l.
Proof.
  induction l as [|x l IH]; intros H; [reflexivity|]. simpl.
  rewrite (H x) by (left; reflexivity).
  rewrite IH by (intros y Hy; apply H; right; exact Hy). reflexivity.
Qed.

Section ReadExtra.

Context {RT : Runtime}.

(** X1: the rows that [read_lancamentos] returns are in the order of
    [ORDER BY data DESC, id DESC], whatever their order in the table: each
    row has a later date text than the rows after it, or the same date and
    an id that is not smaller. *)
Theorem read_lancamentos_sorted (table : list DbRow)
        (filtros : option Filtros) :
  StronglySorted data_id_desc (read_lancamentos table filtros).
Proof.
  rewrite read_lancamentos_rows.
  apply StronglySorted_map with (R := fun a b => order_by a b = true).
  - intros a b H. unfold order_by in H. unfold data_id_desc. simpl.
    apply orb_true_iff in H. destruct H as [H|H]; [left; exact H|right].
    apply andb_true_iff in H. destruct H as (H1 & H2).
    apply String.eqb_eq in H1. apply Z.leb_le in H2. split; assumption.
  - apply isort_sorted.
    + exact order_by_total.
    + exact order_by_trans.
Qed.

Lemma cond_true (p : option string) (test : string -> bool) :
  cond p test = true
  <-> forall s, p = Some s -> s <> ""%string -> test s = true.
Proof.
  unfold cond, truthy. destruct p as [[|c s]|]; split; intros H.
  - intros s [= <-] Hne. exfalso. apply Hne. reflexivity.
  - reflexivity.
  - intros s' [= <-] _. exact H.
  - apply H; [reflexivity|discriminate].
  - intros s Hs. discriminate Hs.
  - reflexivity.
Qed.

Lemma where_clause_matches (filtros : option Filtros) (r : DbRow) :
  where_clause filtros r = true <-> matches filtros (coerce_row r).
Proof.
  unfold where_clause, matches. destruct filtros as [f|]; [|tauto].
  rewrite !andb_true_iff, !cond_true. simpl.
  split.
  - intros (((H1 & H2) & H3) & H4). repeat split; intros s Hs Hne.
    + apply String.eqb_eq, (H1 s Hs Hne).
    + exact (H2 s Hs Hne).
    + exact (H3 s Hs Hne).
    + apply String.eqb_eq, (H4 s Hs Hne).
  - intros (H1 & H2 & H3 & H4). repeat split; intros s Hs Hne.
    + apply String.eqb_eq, (H1 s Hs Hne).
    + exact (H2 s Hs Hne).
    + exact (H3 s Hs Hne).
    + apply String.eqb_eq, (H4 s Hs Hne).
Qed.

Lemma read_lancamentos_In (table : list DbRow) (filtros : option Filtros)
      (l : Lancamento) :
  In l (read_lancamentos table filtros)
  <-> exists r, In r table /\ where_clause filtros r = true
                /\ l = coerce_row r.
Proof.
  rewrite read_lancamentos_rows, in_map_iff. split.
  - intros (r & <- & Hr).
    apply (Permutation_in _ (Permutation_sym (isort_perm order_by _))) in Hr.
    apply filter_In in Hr. destruct Hr as (Hr & Hw).
    exists r. repeat split; assumption.
  - intros (r & Hr & Hw & ->). exists r. split; [reflexivity|].
    apply (Permutation_in _ (isort_perm order_by _)).
    apply filter_In. split; assumption.
Qed.

(** X2: [read_lancamentos] returns exactly the rows of the table that meet
    the conditions of [filtros]: the given company and kind, and a date text
    between the two bounds, each condition only when its key is present and
    not empty. *)
Theorem read_lancamentos_matches (table : list DbRow)
        (filtros : option Filtros) (l : Lancamento) :
  In l (read_lancamentos table filtros)
  <-> exists r, In r table /\ l = coerce_row r /\ matches filtros l.
Proof.
  rewrite read_lancamentos_In. split.
  - intros (r & Hr & Hw & ->). exists r.
    repeat split; [exact Hr|]. apply where_clause_matches, Hw.
  - intros (r & Hr & -> & Hm). exists r.
    repeat split; [exact Hr|]. apply where_clause_matches, Hm.
Qed.

(** X3: a key of [filtros] whose value is the empty text is ignored, as a
    key that is absent: with every key absent or empty the whole table is
    read, as without [filtros]. *)
Theorem read_lancamentos_empty_filtros (table : list DbRow) (f : Filtros) :
  sem_condicao (f_empresa f) -> sem_condicao (f_data_inicio f) ->
  sem_condicao (f_data_fim f) -> sem_condicao (f_tipo f) ->
  read_lancamentos table (Some f) = read_lancamentos table None
  /\ List.length (read_lancamentos table (Some f)) = List.length table.
Proof.
  intros H1 H2 H3 H4.
  assert (Hw : forall r, where_clause (Some f) r = true).
  { intros r. unfold where_clause, cond.
    destruct H1 as [-> | ->], H2 as [-> | ->], H3 as [-> | ->],
             H4 as [-> | ->]; reflexivity. }
  assert (E : filter (where_clause (Some f)) table = table)
    by (apply filter_all; intros r _; apply Hw).
  assert (E0 : filter (where_clause None) table = table)
    by (apply filter_all; reflexivity).
  split.
  - unfold read_lancamentos. rewrite E, E0. reflexivity.
  - rewrite read_lancamentos_length, E. reflexivity.
Qed.

End ReadExtra.

Lemma read_lancamentos_empty_filtros_witness :
  let RT := PyRuntime.runtime in
  let table := [dbrow 1 "2024-01-05" "Entrada" (SqlReal 10);
                dbrow 2 "2024-02-05" "Saída" (SqlReal 4)] in
  let f := mk_filtros (Some ""%string) None (Some ""%string) None in
  read_lancamentos table (Some f) = read_lancamentos table None
  /\ List.length (read_lancamentos table (Some f)) = List.length table.
Proof.
  intros RT table f.
  apply (@read_lancamentos_empty_filtros RT table f);
    first [left; reflexivity|right; reflexivity].
Defined.

(** ** The writers *)

Lemma max_id_ge (rows : list DbRow) (r : DbRow) :
  In r rows -> (db_id r <= max_id rows)%Z.
Proof.
  induction rows as [|r' rows IH]; intros H; [destruct H|]. simpl.
  destruct H as [->|H]; [lia|]. specialize (IH H). lia.
Qed.

Lemma next_id_fresh (db : Db) :
  (sqlite_sequence db < next_id db)%Z
  /\ forall r, In r (lancamentos db) -> (db_id r < next_id db)%Z.
Proof.
  unfold next_id. split; [lia|]. intros r Hr.
  pose proof (max_id_ge _ _ Hr). lia.
Qed.

Lemma existsb_id (rows : list DbRow) (id_ : Z) :
  existsb (fun r => (db_id r =? id_)%Z) rows = true
  <-> exists r, In r rows /\ db_id r = id_.
Proof.
  rewrite existsb_exists. split; intros (r & Hr & H); exists r;
    (split; [exact Hr|]); apply Z.eqb_eq; exact H.
Qed.

Lemma where_clause_None (r : DbRow) : where_clause None r = true.
Proof. reflexivity. Qed.

Section WriterProperties.

Context {RT : Runtime}.


Lemma filter_other_ids_length (rows : list DbRow) (id_ : Z) :
  NoDup (map db_id rows) ->
  (exists r, In r rows /\ db_id r = id_) ->
  S (List.length (filter (fun r => negb (db_id r =? id_)%Z) rows))
  = List.length rows.
Proof.
  induction rows as [|x rows IH]; intros Hnd (r & Hr & Hid);
    [destruct Hr|].
  simpl in Hnd. apply NoDup_cons_iff in Hnd. destruct Hnd as (Hx & Hnd).
  simpl. destruct (Z.eqb_spec (db_id x) id_) as [Heq|Hne]; simpl.
  - f_equal. f_equal. apply filter_all. intros y Hy.
    apply negb_true_iff, Z.eqb_neq. intros Hy'. apply Hx.
    rewrite Heq, <- Hy'. apply in_map, Hy.
  - f_equal. apply IH; [exact Hnd|].
    destruct Hr as [->|Hr]; [contradiction|]. exists r. split; assumption.
Qed.

(** X5: after [delete_lancamento] a read returns the rows it returned
    before, but the rows of the deleted id; an id that is not in the table
    leaves the table as it was, and the method still returns [True]; with
    distinct ids, an id that is in the table takes exactly one row away. *)
Theorem delete_lancamento_read (id_ : Z) (db : Db)
        (filtros : option Filtros) :
  let r := delete_lancamento id_ db in
  fst r = true
  /\ (forall l,
        In l (read_lancamentos (lancamentos (snd r)) filtros)
        <-> In l (read_lancamentos (lancamentos db) filtros) /\ id l <> id_)
  /\ (~ tem_id id_ db -> snd r = db)
  /\ (db_ok db -> tem_id id_ db ->
      S (List.length (lancamentos (snd r))) = List.length (lancamentos db)).
Proof.
  simpl. split; [reflexivity|]. split; [|split].
  - intros l. rewrite !read_lancamentos_In. split.
    + intros (x & Hx & Hw & ->). apply filter_In in Hx.
      destruct Hx as (Hx & Hid). split.
      * exists x. repeat split; assumption.
      * simpl. apply negb_true_iff, Z.eqb_neq in Hid. exact Hid.
    + intros ((x & Hx & Hw & ->) & Hid). exists x.
      repeat split; try assumption. apply filter_In. split; [exact Hx|].
      apply negb_true_iff, Z.eqb_neq. exact Hid.
  - intros Hno. destruct db as [rows seq]. simpl in *. f_equal.
    apply filter_all. intros x Hx. apply negb_true_iff, Z.eqb_neq.
    intros Hid. apply Hno. exists x. split; assumption.
  - intros (Hnd & _) Hin. apply filter_other_ids_length; assumption.
Qed.

Lemma map_update_ids (now data empresa : string) (dados : Dados) (id_ : Z)
      (rows : list DbRow) :
  let rows' := map (fun r => if (db_id r =? id_)%Z
                             then updated_row now data empresa dados r
                             else r) rows in
  map db_id rows' = map db_id rows
  /\ map db_created_at rows' = map db_created_at rows.
Proof.
  simpl. rewrite !map_map. split; apply map_ext; intros r;
    destruct (db_id r =? id_)%Z; reflexivity.
Qed.

(** X6: [update_lancamento] on an id of the table, with [data] and
    [empresa] given, returns [True] and keeps the ids and the creation
    times of all rows in place; a read then shows the rows of the other ids
    as before and, for the id, the values given (with the defaults for absent
    keys) and the time of the update. *)
Theorem update_lancamento_read (now : string) (id_ : Z) (dados : Dados)
        (db : Db) (data empresa : string) :
  tem_id id_ db ->
  d_data dados = Some data ->
  d_empresa dados = Some empresa ->
  let r := update_lancamento now id_ dados db in
  fst r = true
  /\ map db_id (lancamentos (snd r)) = map db_id (lancamentos db)
  /\ map db_created_at (lancamentos (snd r))
     = map db_created_at (lancamentos db)
  /\ sqlite_sequence (snd r) = sqlite_sequence db
  /\ (forall l, id l <> id_ ->
        (In l (read_lancamentos (lancamentos (snd r)) None)
         <-> In l (read_lancamentos (lancamentos db) None)))
  /\ (exists l, In l (read_lancamentos (lancamentos (snd r)) None)
                /\ id l = id_)
  /\ (forall l, In l (read_lancamentos (lancamentos (snd r)) None) ->
        id l = id_ ->
        atualizado l now dados data empresa).
Proof.
  intros Hin Hd He r. subst r. unfold update_lancamento.
  rewrite (proj2 (existsb_id _ _) Hin), Hd, He.
  cbn [fst snd lancamentos sqlite_sequence].
  destruct (map_update_ids now data empresa dados id_ (lancamentos db))
    as (Hids & Hcre).
  split; [reflexivity|]. split; [exact Hids|]. split; [exact Hcre|].
  split; [reflexivity|]. split; [|split].
  - intros l Hne. rewrite !read_lancamentos_In. split.
    + intros (x' & Hx' & _ & ->). apply in_map_iff in Hx'.
      destruct Hx' as (x & <- & Hx).
      destruct (Z.eqb_spec (db_id x) id_) as [Heq|Hneq].
      * exfalso. apply Hne. exact Heq.
      * exists x. repeat split. exact Hx.
    + intros (x & Hx & _ & ->). exists x. split; [|split; reflexivity].
      apply in_map_iff. exists x. split; [|exact Hx].
      destruct (Z.eqb_spec (db_id x) id_) as [Heq|Hneq];
        [|reflexivity].
      exfalso. apply Hne. exact Heq.
  - destruct Hin as (x & Hx & Hid).
    exists (coerce_row (updated_row now data empresa dados x)).
    split; [|exact Hid]. apply read_lancamentos_In.
    eexists. split; [|split; reflexivity].
    apply in_map_iff. exists x. split; [|exact Hx].
    rewrite (proj2 (Z.eqb_eq _ _) Hid). reflexivity.
  - intros l Hl Hid. apply read_lancamentos_In in Hl.
    destruct Hl as (x' & Hx' & _ & ->). apply in_map_iff in Hx'.
    destruct Hx' as (x & <- & Hx).
    destruct (Z.eqb_spec (db_id x) id_) as [Heq|Hneq].
    + repeat split.
    + exfalso. apply Hneq. exact Hid.
Qed.


End WriterProperties.

(** Dropping rows keeps the ids distinct. *)
Lemma ids_NoDup_filter (keep : DbRow -> bool) (rows : list DbRow) :
  NoDup (map db_id rows) -> NoDup (map db_id (filter keep rows)).
Proof.
  induction rows as [|r rows IH]; intros Hnd; [exact Hnd|]. simpl in *.
  apply NoDup_cons_iff in Hnd. destruct Hnd as (Hr & Hnd).
  destruct (keep r); [|exact (IH Hnd)]. simpl.
  constructor; [|exact (IH Hnd)].
  intros Hin. apply Hr. apply in_map_iff in Hin.
  destruct Hin as (r' & Hid & Hin). apply filter_In in Hin.
  apply in_map_iff. exists r'. split; [exact Hid|apply Hin].
Qed.

(** One call keeps the ids distinct and below the counter, never lowers
    the counter, and gives a new row an id above the old counter. *)
Lemma escrever_step (op : Escrita) (db : Db) :
  db_ok db ->
  db_ok (snd (escrever op db))
  /\ (sqlite_sequence db <= sqlite_sequence (snd (escrever op db)))%Z
  /\ forall r, In r (lancamentos (snd (escrever op db))) ->
               In (db_id r) (map db_id (lancamentos db))
               \/ (sqlite_sequence db < db_id r)%Z.
Proof.
  intros (Hnd & Hle).
  assert (Hsame : db_ok db
                  /\ (sqlite_sequence db <= sqlite_sequence db)%Z
                  /\ forall r, In r (lancamentos db) ->
                               In (db_id r) (map db_id (lancamentos db))
                               \/ (sqlite_sequence db < db_id r)%Z).
  { split; [split; assumption|]. split; [lia|].
    intros r Hr. left. apply in_map, Hr. }
  destruct op as [now dados|now id_ dados|id_]; simpl.
  - unfold insert_lancamento.
    destruct (d_data dados) as [d|]; [|exact Hsame].
    destruct (d_empresa dados) as [e|]; [|exact Hsame].
    unfold db_ok. cbn [snd lancamentos sqlite_sequence].
    destruct (next_id_fresh db) as (Hseq & Hfresh).
    split; [split|split].
    + rewrite map_app. simpl.
      apply (Permutation_NoDup (l := next_id db :: map db_id (lancamentos db))).
      { apply Permutation_cons_append. }
      constructor; [|exact Hnd]. intros Hin. apply in_map_iff in Hin.
      destruct Hin as (r & Hr & Hin). specialize (Hfresh r Hin). lia.
    + intros r Hr. apply in_app_iff in Hr. destruct Hr as [Hr|[<-|[]]].
      * specialize (Hfresh r Hr). lia.
      * simpl. lia.
    + lia.
    + intros r Hr. apply in_app_iff in Hr. destruct Hr as [Hr|[<-|[]]].
      * left. apply in_map, Hr.
      * right. exact Hseq.
  - unfold update_lancamento.
    destruct (existsb (fun r => (db_id r =? id_)%Z) (lancamentos db));
      [|exact Hsame].
    destruct (d_data dados) as [d|]; [|exact Hsame].
    destruct (d_empresa dados) as [e|]; [|exact Hsame].
    unfold db_ok. cbn [snd lancamentos sqlite_sequence].
    destruct (map_update_ids now d e dados id_ (lancamentos db))
      as (Hids & _).
    split; [split|split].
    + rewrite Hids. exact Hnd.
    + intros r Hr. apply in_map_iff in Hr. destruct Hr as (x & <- & Hx).
      specialize (Hle x Hx).
      destruct (db_id x =? id_)%Z; simpl; exact Hle.
    + lia.
    + intros r Hr. left. rewrite <- Hids. apply in_map, Hr.
  - unfold db_ok. cbn [snd lancamentos sqlite_sequence].
    split; [split|split].
    + apply ids_NoDup_filter, Hnd.
    + intros r Hr. apply filter_In in Hr. apply Hle, Hr.
    + lia.
    + intros r Hr. apply filter_In in Hr. left. apply in_map, Hr.
Qed.

(** X8: through any sequence of inserts, updates and deletes, a table
    whose ids are distinct and not above the counter stays so; the counter
    never goes down, and every row of the final table either carries an id
    the table had at the start or an id above the counter of the start: the
    id of a deleted row is never given again. *)
Theorem escrever_todas_ids (ops : list Escrita) (db : Db) :
  db_ok db ->
  db_ok (escrever_todas ops db)
  /\ (sqlite_sequence db <= sqlite_sequence (escrever_todas ops db))%Z
  /\ forall r, In r (lancamentos (escrever_todas ops db)) ->
               In (db_id r) (map db_id (lancamentos db))
               \/ (sqlite_sequence db < db_id r)%Z.
Proof.
  revert db. induction ops as [|op ops IH]; intros db Hok.
  - simpl. split; [exact Hok|]. split; [lia|].
    intros r Hr. left. apply in_map, Hr.
  - simpl. destruct (escrever_step op Hok) as (Hok1 & Hseq1 & Hnew1).
    destruct (IH _ Hok1) as (Hok2 & Hseq2 & Hnew2).
    split; [exact Hok2|]. split; [lia|].
    intros r Hr. destruct (Hnew2 r Hr) as [Hin|Hgt]; [|right; lia].
    apply in_map_iff in Hin. destruct Hin as (x & Hx & Hin).
    rewrite <- Hx. apply Hnew1, Hin.
Qed.


Lemma update_lancamento_read_witness :
  let RT := PyRuntime.runtime in
  let db := mk_db [dbrow 1 "2024-01-05" "Entrada" (SqlReal 10);
                   dbrow 4 "2024-02-05" "Saída" (SqlReal 4)] 7 in
  let dados := mk_dados (Some "2024-03-01"%string) (Some "Acme"%string)
                        None None (Some "Saída"%string) (Some 25) None in
  let r := update_lancamento "2024-03-02T08:00:00" 4 dados db in
  fst r = true
  /\ map db_id (lancamentos (snd r)) = map db_id (lancamentos db)
  /\ map db_created_at (lancamentos (snd r))
     = map db_created_at (lancamentos db)
  /\ sqlite_sequence (snd r) = sqlite_sequence db
  /\ (forall l, id l <> 4%Z ->
        (In l (read_lancamentos (lancamentos (snd r)) None)
         <-> In l (read_lancamentos (lancamentos db) None)))
  /\ (exists l, In l (read_lancamentos (lancamentos (snd r)) None)
                /\ id l = 4%Z)
  /\ (forall l, In l (read_lancamentos (lancamentos (snd r)) None) ->
        id l = 4%Z ->
        atualizado l "2024-03-02T08:00:00" dados "2024-03-01" "Acme").
Proof.
  intros RT db dados.
  apply (@update_lancamento_read RT "2024-03-02T08:00:00" 4 dados db
           "2024-03-01" "Acme"); try reflexivity.
  exists (dbrow 4 "2024-02-05" "Saída" (SqlReal 4)).
  split; [right; left; reflexivity|reflexivity].
Defined.

Lemma escrever_todas_ids_witness :
  let db := mk_db [dbrow 1 "2024-01-05" "Entrada" (SqlReal 10);
                   dbrow 4 "2024-02-05" "Saída" (SqlReal 4)] 4 in
  let dados := mk_dados (Some "2024-03-01"%string) (Some "Acme"%string)
                        None None None (Some 25) None in
  let ops := [Delete 4; Insert "2024-03-01T10:00:00" dados] in
  db_ok (escrever_todas ops db)
  /\ (sqlite_sequence db <= sqlite_sequence (escrever_todas ops db))%Z
  /\ forall r, In r (lancamentos (escrever_todas ops db)) ->
               In (db_id r) (map db_id (lancamentos db))
               \/ (sqlite_sequence db < db_id r)%Z.
Proof.
  intros db dados ops. apply (escrever_todas_ids ops (db := db)).
  split.
  - repeat constructor; simpl; intuition discriminate.
  - intros r [<-|[<-|[]]]; simpl; lia.
Defined.

(** ** [get_empresas_list] *)

Lemma unique_In (l : list string) (x : string) : In x (unique l) <-> In x l.
Proof.
  induction l as [|y l IH]; simpl; [tauto|].
  rewrite filter_In, IH, negb_true_iff, String.eqb_neq.
  destruct (string_dec y x) as [->|Hne]; [tauto|].
  split; [intros [H|(H & _)]; tauto|intros [H|H]; [tauto|right; tauto]].
Qed.

Lemma unique_NoDup (l : list string) : NoDup (unique l).
Proof.
  induction l as [|y l IH]; simpl; constructor.
  - rewrite filter_In, negb_true_iff, String.eqb_neq. intros (_ & H).
    apply H. reflexivity.
  - apply NoDup_filter, IH.
Qed.

Lemma leb_neq_ltb (a b : string) :
  String.leb a b = true -> a <> b -> String.ltb a b = true.
Proof.
  unfold String.leb, String.ltb. intros H Hne.
  destruct (String.compare a b) eqn:E; try reflexivity; try discriminate H.
  apply string_compare_eq in E. contradiction.
Qed.

(** A sorted list without repetition is strictly sorted. *)
Lemma sorted_NoDup_strict (l : list string) :
  StronglySorted (fun a b => String.leb a b = true) l -> NoDup l ->
  StronglySorted (fun a b => String.ltb a b = true) l.
Proof.
  induction 1 as [|x l Hs IH Hall]; intros Hnd; constructor.
  - apply IH. apply NoDup_cons_iff in Hnd. apply Hnd.
  - apply NoDup_cons_iff in Hnd. destruct Hnd as (Hx & _).
    rewrite Forall_forall in *. intros y Hy.
    apply leb_neq_ltb; [apply Hall, Hy|].
    intros ->. contradiction.
Qed.

Section EmpresasProperties.

Context {RT : Runtime}.

(** X9: [get_empresas_list] never returns an empty list.  When some row
    has a company name that is not blank, the list holds exactly the names
    of the frame that are not blank, each once, in increasing order; when
    the frame is empty or every name is blank, it is the default list. *)
Theorem get_empresas_list_names (df : DataFrame) :
  get_empresas_list df <> []
  /\ ((exists r, In r df /\ str_true (str_strip (empresa r)) = true) ->
      StronglySorted (fun a b => String.ltb a b = true)
                     (get_empresas_list df)
      /\ forall e, In e (get_empresas_list df)
                   <-> (exists r, In r df /\ empresa r = e)
                       /\ str_true (str_strip e) = true)
  /\ ((forall r, In r df -> str_true (str_strip (empresa r)) = false) ->
      get_empresas_list df = EMPRESAS_PADRAO).
Proof.
  set (names := filter (fun e => str_true (str_strip e))
                       (unique (map empresa df))).
  assert (Hin : forall e, In e (isort String.leb names)
                          <-> (exists r, In r df /\ empresa r = e)
                              /\ str_true (str_strip e) = true).
  { intros e. split.
    - intros H.
      apply (Permutation_in _ (Permutation_sym (isort_perm _ _))) in H.
      apply filter_In in H. destruct H as (H & Hs).
      apply unique_In, in_map_iff in H. destruct H as (r & Hr & H).
      split; [exists r; split; assumption|exact Hs].
    - intros ((r & Hr & He) & Hs).
      apply (Permutation_in _ (isort_perm _ _)).
      apply filter_In. split; [|exact Hs].
      apply unique_In, in_map_iff. exists r. split; assumption. }
  assert (Hdef : EMPRESAS_PADRAO <> []) by discriminate.
  unfold get_empresas_list. fold names.
  destruct (df_empty df) eqn:Edf.
  - destruct df; [|discriminate Edf].
    split; [exact Hdef|]. split; [|reflexivity].
    intros (r & [] & _).
  - destruct (isort String.leb names) as [|e0 es] eqn:Es.
    + simpl. split; [exact Hdef|]. split; [|reflexivity].
      intros (r & Hr & Hs). exfalso.
      apply (proj2 (Hin (empresa r))).
      split; [exists r; split; [exact Hr|reflexivity]|exact Hs].
    + simpl df_empty. cbv iota. split; [discriminate|]. split.
      * intros _. split; [|exact Hin]. rewrite <- Es.
        apply sorted_NoDup_strict.
        -- apply isort_sorted;
             [exact string_leb_total|exact string_leb_trans].
        -- apply (Permutation_NoDup (isort_perm _ _)).
           apply NoDup_filter, unique_NoDup.
      * intros Hblank. exfalso.
        destruct (proj1 (Hin e0) (or_introl eq_refl))
          as ((r & Hr & He) & Hs).
        rewrite <- He, (Hblank r Hr) in Hs. discriminate Hs.
Qed.

End EmpresasProperties.

(** ** [prepare_monthly_data] *)






Section ComparativoProperties.

Context {RT : Runtime}.





End ComparativoProperties.


(** ** The projection of [page_previsoes] and its summary *)

Lemma Qle_bool_false (a b : Q) : Qle_bool a b = false -> b < a.
Proof.
  intros H. destruct (Qlt_le_dec b a) as [Hlt|Hle]; [exact Hlt|].
  apply Qle_bool_iff in Hle. rewrite Hle in H. discriminate H.
Qed.

Lemma max0_le (a b : Q) : a <= b -> max0 a <= max0 b.
Proof.
  intros Hab. unfold max0.
  destruct (Qle_bool a 0) eqn:Ha, (Qle_bool b 0) eqn:Hb.
  - apply Qle_refl.
  - apply Qle_bool_false in Hb. apply Qlt_le_weak, Hb.
  - apply Qle_bool_iff in Hb. apply Qle_bool_false in Ha. lra.
  - exact Hab.
Qed.

Lemma max0_eq (a b : Q) : a == b -> max0 a == Qmax 0 b.
Proof. intros H. rewrite max0_Qmax, H. reflexivity. Qed.

Lemma line_increasing (s c x y : Q) :
  0 <= s -> x <= y -> c + s * x <= c + s * y.
Proof.
  intros Hs Hxy. apply Qplus_le_r.
  rewrite (Qmult_comm s x), (Qmult_comm s y).
  apply Qmult_le_compat_r; assumption.
Qed.

Lemma line_decreasing (s c x y : Q) :
  s <= 0 -> x <= y -> c + s * y <= c + s * x.
Proof.
  intros Hs Hxy.
  assert (H : c + - s * x <= c + - s * y)
    by (apply line_increasing; [lra|exact Hxy]).
  lra.
Qed.

Lemma seq_sorted (a k : nat) : StronglySorted le (seq a k).
Proof.
  revert a. induction k as [|k IH]; intros a; simpl; constructor.
  - apply IH.
  - rewrite Forall_forall. intros x Hx. apply in_seq in Hx. lia.
Qed.

Lemma range1_sorted (n : Z) : StronglySorted Z.le (range1 n).
Proof.
  unfold range1. apply StronglySorted_map with (R := le).
  - intros a b Hab. lia.
  - apply seq_sorted.
Qed.

Lemma projetar_In (monthly_hist : Pivot) (meses_projecao : Z)
      (p : Projecao) :
  In p (projetar monthly_hist meses_projecao) ->
  0 <= entradas_proj p /\ 0 <= saidas_proj p
  /\ saldo_proj p = entradas_proj p - saidas_proj p.
Proof.
  rewrite projetar_points. intros H. apply in_map_iff in H.
  destruct H as (i & <- & _). cbn.
  split; [apply max0_nonneg|]. split; [apply max0_nonneg|reflexivity].
Qed.

Lemma qsum_nonneg (l : list Q) :
  (forall x, In x l -> 0 <= x) -> 0 <= qsum l.
Proof.
  induction l as [|x l IH]; intros H; simpl; [apply Qle_refl|].
  assert (Hx : 0 <= x) by (apply H; left; reflexivity).
  assert (Hl : 0 <= qsum l) by (apply IH; intros y Hy; apply H; right; exact Hy).
  lra.
Qed.

Lemma qsum_saldo (projecoes : list Projecao) :
  (forall p, In p projecoes ->
             saldo_proj p = entradas_proj p - saidas_proj p) ->
  qsum (map saldo_proj projecoes)
  == qsum (map entradas_proj projecoes) - qsum (map saidas_proj projecoes).
Proof.
  induction projecoes as [|p ps IH]; intros H; simpl; [reflexivity|].
  rewrite (H p (or_introl eq_refl)), IH; [ring|].
  intros q Hq. apply H. right. exact Hq.
Qed.

Lemma firstn_incl (A : Type) (k : nat) (l : list A) (x : A) :
  In x (firstn k l) -> In x l.
Proof.
  revert l. induction k as [|k IH]; intros [|y l] H; simpl in H;
    try contradiction.
  destruct H as [H|H]; [left; exact H|right; exact (IH _ H)].
Qed.

Lemma pct_if_positive_lower (a b : Q) :
  0 <= a + b -> - (100) <= pct_if_positive a b.
Proof.
  intros H. unfold pct_if_positive. destruct (Qle_bool b 0) eqn:E; [lra|].
  apply Qle_bool_false in E.
  assert (Hx : - (1) <= a / b) by (apply Qle_shift_div_l; [exact E|lra]).
  set (x := a / b) in *. lra.
Qed.

Lemma pct_if_positive_upper (a b : Q) :
  a <= b -> pct_if_positive a b <= 100.
Proof.
  intros H. unfold pct_if_positive. destruct (Qle_bool b 0) eqn:E; [lra|].
  apply Qle_bool_false in E.
  assert (Hx : a / b <= 1) by (apply Qle_shift_div_r; [exact E|lra]).
  set (x := a / b) in *. lra.
Qed.

Lemma pct_if_positive_nonpos (a b : Q) :
  a <= 0 -> pct_if_positive a b <= 0.
Proof.
  intros H. unfold pct_if_positive. destruct (Qle_bool b 0) eqn:E; [lra|].
  apply Qle_bool_false in E.
  assert (Hx : a / b <= 0) by (apply Qle_shift_div_r; [exact E|lra]).
  set (x := a / b) in *. lra.
Qed.

(** X12: the summary of a projection.  The projected totals are never
    negative; the projected return is never below -100 % and the safety
    margin never above 100 %; when the page warns of a negative projected
    balance it also warns of a low safety margin, and it reports a safety
    margin (10 % or more) only together with the positive recommendation. *)
Theorem resumo_projecoes_bounds (monthly_hist : Pivot) (meses_projecao : Z) :
  let r := resumo_projecoes (projetar monthly_hist meses_projecao) in
  0 <= total_ent_proj r
  /\ 0 <= total_sai_proj r
  /\ - (100) <= roi_proj r
  /\ margem_seguranca r <= 100
  /\ (recomendacao r = SaldoNegativo -> margem_baixa r = true)
  /\ (margem_baixa r = false -> recomendacao r = SaldoPositivo).
Proof.
  intros r. unfold r, resumo_projecoes.
  cbn [total_ent_proj total_sai_proj roi_proj margem_seguranca
       recomendacao margem_baixa].
  set (ps := projetar monthly_hist meses_projecao).
  assert (He : 0 <= qsum (map entradas_proj ps)).
  { apply qsum_nonneg. intros x Hx. apply in_map_iff in Hx.
    destruct Hx as (p & <- & Hp). apply (projetar_In _ _ _ Hp). }
  assert (Hs : 0 <= qsum (map saidas_proj ps)).
  { apply qsum_nonneg. intros x Hx. apply in_map_iff in Hx.
    destruct Hx as (p & <- & Hp). apply (projetar_In _ _ _ Hp). }
  set (e := qsum (map entradas_proj ps)) in *.
  set (s := qsum (map saidas_proj ps)) in *.
  split; [exact He|]. split; [exact Hs|].
  split; [apply pct_if_positive_lower; lra|].
  split; [apply pct_if_positive_upper; lra|].
  split.
  - destruct (Qle_bool 0 (e - s)) eqn:E0; simpl.
    + destruct (Qle_bool (e - s) 0); intros H; discriminate H.
    + intros _. apply Qle_bool_false in E0.
      destruct (Qle_bool 10 (pct_if_positive (e - s) e)) eqn:E10;
        [|reflexivity].
      apply Qle_bool_iff in E10.
      assert (Hn : pct_if_positive (e - s) e <= 0)
        by (apply pct_if_positive_nonpos; lra).
      lra.
  - destruct (Qle_bool 10 (pct_if_positive (e - s) e)) eqn:E10;
      simpl; intros H; [|discriminate H].
    apply Qle_bool_iff in E10.
    assert (Hpos : 0 < e - s).
    { destruct (Qlt_le_dec 0 (e - s)) as [Hlt|Hle]; [exact Hlt|].
      assert (Hn : pct_if_positive (e - s) e <= 0)
        by (apply pct_if_positive_nonpos; exact Hle).
      lra. }
    assert (E0 : Qle_bool 0 (e - s) = true)
      by (apply Qle_bool_iff; lra).
    rewrite E0. simpl.
    destruct (Qle_bool (e - s) 0) eqn:E1; [|reflexivity].
    apply Qle_bool_iff in E1. lra.
Qed.

Lemma cumsum_from_length (acc : Q) (l : list Q) :
  List.length (cumsum_from acc l) = List.length l.
Proof.
  revert acc. induction l as [|x l IH]; intros acc; simpl;
    [reflexivity|]. rewrite IH. reflexivity.
Qed.


Lemma cumsum_from_nth (acc : Q) (l : list Q) (k : nat) (v : Q) :
  nth_error (cumsum_from acc l) k = Some v ->
  v == acc + qsum (firstn (S k) l).
Proof.
  revert acc k. induction l as [|x l IH]; intros acc k H.
  - destruct k; discriminate H.
  - destruct k as [|k].
    + simpl in H. injection H as <-. simpl. ring.
    + simpl in H. apply IH in H. rewrite H.
      change (firstn (S (S k)) (x :: l)) with (x :: firstn (S k) l).
      simpl qsum. ring.
Qed.

Lemma cumsum_nth (l : list Q) (k : nat) (v : Q) :
  nth_error (cumsum l) k = Some v -> v == qsum (firstn (S k) l).
Proof.
  destruct l as [|x l]; intros H.
  - destruct k; discriminate H.
  - destruct k as [|k].
    + simpl in H. injection H as <-. simpl. ring.
    + simpl in H. apply cumsum_from_nth in H. rewrite H.
      change (firstn (S (S k)) (x :: l)) with (x :: firstn (S k) l).
      simpl qsum. ring.
Qed.

Lemma cumsum_from_last (acc d : Q) (l : list Q) :
  last (acc :: cumsum_from acc l) d == acc + qsum l.
Proof.
  revert acc. induction l as [|x l IH]; intros acc.
  - simpl. ring.
  - change (last (acc :: cumsum_from acc (x :: l)) d)
      with (last ((acc + x) :: cumsum_from (acc + x) l) d).
    rewrite IH. simpl. ring.
Qed.

Lemma cumsum_last (l : list Q) : last (cumsum l) 0 == qsum l.
Proof.
  destruct l as [|x l]; [reflexivity|].
  unfold cumsum. rewrite cumsum_from_last. reflexivity.
Qed.

(** X13: the column "Saldo Acumulado" of the projection table has one entry
    per projected month; its k-th entry is the projected inflow minus the
    projected outflow of the months up to and including the k-th; and its
    last entry is the "Saldo Projetado" shown in the metrics above it. *)
Theorem saldo_acumulado_running (monthly_hist : Pivot)
        (meses_projecao : Z) :
  let projecoes := projetar monthly_hist meses_projecao in
  let r := resumo_projecoes projecoes in
  List.length (saldo_acumulado r) = Z.to_nat meses_projecao
  /\ (forall k v, nth_error (saldo_acumulado r) k = Some v ->
        v == qsum (map entradas_proj (firstn (S k) projecoes))
             - qsum (map saidas_proj (firstn (S k) projecoes)))
  /\ last (saldo_acumulado r) 0 == saldo_total_proj r.
Proof.
  intros projecoes r. unfold r, resumo_projecoes.
  cbn [saldo_acumulado saldo_total_proj].
  split; [|split].
  - unfold cumsum.
    destruct (map saldo_proj projecoes) as [|x l] eqn:E.
    + apply (f_equal (@List.length Q)) in E. rewrite length_map in E.
      unfold projecoes in E. rewrite projetar_points, length_map in E.
      rewrite range1_length in E. simpl in E. simpl. symmetry. exact E.
    + apply (f_equal (@List.length Q)) in E. rewrite length_map in E.
      unfold projecoes in E. rewrite projetar_points, length_map in E.
      rewrite range1_length in E. simpl in E. simpl.
      rewrite cumsum_from_length. symmetry. exact E.
  - intros k v H. apply cumsum_nth in H. rewrite firstn_map in H.
    rewrite H. apply qsum_saldo. intros p Hp. apply firstn_incl in Hp.
    apply (projetar_In _ _ _ Hp).
  - rewrite cumsum_last. apply qsum_saldo. intros p Hp.
    apply (projetar_In _ _ _ Hp).
Qed.

(** X14: a fitted line that does not fall gives projected amounts that do
    not fall from one projected month to the next, and a line that does not
    rise gives amounts that do not rise, for the inflow and for the outflow:
    the clamp at zero keeps the order. *)
Theorem projetar_monotonic (monthly_hist : Pivot) (meses_projecao : Z) :
  let projecoes := projetar monthly_hist meses_projecao in
  (0 <= fst (fit_column "entrada" monthly_hist) ->
   StronglySorted (fun p q => entradas_proj p <= entradas_proj q) projecoes)
  /\ (fst (fit_column "entrada" monthly_hist) <= 0 ->
      StronglySorted (fun p q => entradas_proj q <= entradas_proj p)
                     projecoes)
  /\ (0 <= fst (fit_column "saída" monthly_hist) ->
      StronglySorted (fun p q => saidas_proj p <= saidas_proj q) projecoes)
  /\ (fst (fit_column "saída" monthly_hist) <= 0 ->
      StronglySorted (fun p q => saidas_proj q <= saidas_proj p) projecoes).
Proof.
  intros projecoes. unfold projecoes. rewrite projetar_points.
  assert (Hz : forall a b : Z, (a <= b)%Z ->
                 inject_Z (pv_len monthly_hist + a - 1)
                 <= inject_Z (pv_len monthly_hist + b - 1)).
  { intros a b Hab. rewrite <- Zle_Qle. lia. }
  repeat split; intros Hs;
    (apply StronglySorted_map with (R := Z.le); [|apply range1_sorted]);
    intros a b Hab; cbn; apply max0_le;
    first [ apply line_increasing; [exact Hs|exact (Hz a b Hab)]
          | apply line_decreasing; [exact Hs|exact (Hz a b Hab)] ].
Qed.

Lemma NoDup_constant (m : Z) (l : list Z) :
  NoDup l -> l <> [] -> (forall x, In x l -> x = m) -> l = [m].
Proof.
  intros Hnd Hne Hall. destruct l as [|x [|y l]].
  - contradiction.
  - rewrite (Hall x (or_introl eq_refl)). reflexivity.
  - exfalso. inversion Hnd as [|? ? Hnot _]. apply Hnot. left.
    rewrite (Hall x), (Hall y); [reflexivity| |]; simpl; auto.
Qed.

(** The fit of a column over a history of one month: the constant line at
    the total of the kind. *)
Lemma fit_column_single_month (k : string) (rows : list MonthRow) (m : Z) :
  rows <> [] ->
  (forall r, In r rows -> mr_mes r = m) ->
  let monthly := groupby_sum_unstack rows in
  pv_index monthly = [m]
  /\ fst (fit_column k monthly) = 0
  /\ snd (fit_column k monthly)
     == qsum (map mr_valor
                (filter (fun r => String.eqb (mr_tipo_norm r) k) rows)).
Proof.
  intros Hne Hall monthly.
  assert (Hidx : pv_index monthly = [m]).
  { apply NoDup_constant.
    - apply sort_uniq_NoDup.
    - intros H. apply groupby_index_nil in H. contradiction.
    - intros x Hx. apply sort_uniq_In in Hx. apply in_map_iff in Hx.
      destruct Hx as (r & <- & Hr). exact (Hall r Hr). }
  assert (Htot : group_sum rows m k
                 == qsum (map mr_valor
                            (filter (fun r => String.eqb (mr_tipo_norm r) k)
                                    rows))).
  { rewrite <- (@group_sum_partition k [m] rows).
    - simpl. ring.
    - repeat constructor. intros [].
    - intros r Hr. left. symmetry. exact (Hall r Hr). }
  split; [exact Hidx|].
  unfold fit_column, monthly. rewrite groupby_column. fold monthly.
  rewrite Hidx.
  destruct (in_dec string_dec k (map mr_tipo_norm rows)) as [Hin|Hout].
  - simpl. split; [reflexivity|]. unfold nanmean, qlen. simpl.
    rewrite <- Htot. field.
  - simpl. split; [reflexivity|]. rewrite <- Htot.
    rewrite (@group_sum_absent rows m k Hout). reflexivity.
Qed.

Section PrevisoesProperties.

Context {RT : Runtime}.

(** X15: a history whose parseable dates all fall in one month gives a flat
    projection: every projected month carries that month's total of inflows
    and of outflows, clamped at zero. *)
Theorem previsoes_single_month (df_historico : DataFrame)
        (meses_projecao m : Z) :
  ~ no_parseable_date df_historico ->
  (forall p, In p (dropna_data_dt df_historico) ->
             to_period_M (snd p) = m) ->
  let total (k : string) :=
    qsum (map valor
            (filter (fun r => String.eqb (str_lower (tipo r)) k)
                    (map fst (dropna_data_dt df_historico)))) in
  exists projecoes,
    page_previsoes df_historico meses_projecao = Projecoes projecoes
    /\ List.length projecoes = Z.to_nat meses_projecao
    /\ forall p, In p projecoes ->
         entradas_proj p == Qmax 0 (total "entrada"%string)
         /\ saidas_proj p == Qmax 0 (total "saída"%string)
         /\ (m < mes p <= m + meses_projecao)%Z.
Proof.
  intros Hsome Hmonth total.
  rewrite (previsoes_projecoes meses_projecao Hsome).
  set (rows := map (month_row str_lower) (dropna_data_dt df_historico)).
  eexists. split; [reflexivity|].
  assert (Hne : rows <> []).
  { intros E. apply Hsome. intros r Hr.
    destruct (to_datetime (data r)) as [d|] eqn:Ed; [|reflexivity].
    exfalso.
    assert (Hin : In (r, d) (dropna_data_dt df_historico)).
    { unfold dropna_data_dt. clear - Hr Ed.
      induction df_historico as [|r0 df IH]; [destruct Hr|].
      simpl. destruct Hr as [->|Hr].
      - rewrite Ed. left. reflexivity.
      - destruct (to_datetime (data r0)); [right|]; exact (IH Hr). }
    unfold rows in E. apply (in_map (month_row str_lower)) in Hin.
    rewrite E in Hin. destruct Hin. }
  assert (Hall : forall r, In r rows -> mr_mes r = m).
  { intros r Hr. unfold rows in Hr. apply in_map_iff in Hr.
    destruct Hr as (p & <- & Hp). exact (Hmonth p Hp). }
  destruct (fit_column_single_month "entrada" Hne Hall)
    as (Hidx & He0 & He1).
  destruct (fit_column_single_month "saída" Hne Hall) as (_ & Hs0 & Hs1).
  rewrite projetar_points. split.
  - rewrite length_map. apply range1_length.
  - intros p Hp. apply in_map_iff in Hp. destruct Hp as (i & <- & Hi).
    cbn [entradas_proj saidas_proj mes]. rewrite He0, Hs0, Hidx.
    unfold total. rewrite <- !(month_rows_kind str_lower). fold rows.
    split; [|split].
    + apply max0_eq. rewrite He1. ring.
    + apply max0_eq. rewrite Hs1. ring.
    + unfold range1 in Hi. apply in_map_iff in Hi.
      destruct Hi as (j & <- & Hj). apply in_seq in Hj. simpl. lia.
Qed.

End PrevisoesProperties.

(** The fit of a column over a history of two months: the line through
    the two totals. *)
Lemma fit_column_two_months (k : string) (monthly_hist : Pivot)
      (m1 m2 : Z) (a b : Q) :
  pv_index monthly_hist = [m1; m2] ->
  column k (pv_columns monthly_hist) = Some [a; b] ->
  fst (fit_column k monthly_hist) == b - a
  /\ snd (fit_column k monthly_hist) == a.
Proof.
  intros Hidx Hcol. unfold fit_column. rewrite Hcol, Hidx.
  unfold _fit. simpl. unfold qlen, dot. simpl. split; field.
Qed.

(** X16: over a history of two months the projection continues the change
    from the first month to the second: the i-th projected month carries the
    second month's total plus i times the change, clamped at zero. *)
Theorem projetar_two_months (monthly_hist : Pivot) (meses_projecao : Z)
        (m1 m2 : Z) (a b c d : Q) (i : Z) :
  pv_index monthly_hist = [m1; m2] ->
  column "entrada" (pv_columns monthly_hist) = Some [a; b] ->
  column "saída" (pv_columns monthly_hist) = Some [c; d] ->
  (1 <= i <= meses_projecao)%Z ->
  exists p,
    nth_error (projetar monthly_hist meses_projecao) (Z.to_nat (i - 1))
    = Some p
    /\ entradas_proj p == Qmax 0 (b + inject_Z i * (b - a))
    /\ saidas_proj p == Qmax 0 (d + inject_Z i * (d - c)).
Proof.
  intros Hidx He Hs Hi.
  destruct (fit_column_two_months "entrada" monthly_hist Hidx He)
    as (He0 & He1).
  destruct (fit_column_two_months "saída" monthly_hist Hidx Hs)
    as (Hs0 & Hs1).
  rewrite projetar_points.
  eexists. split.
  - apply map_nth_error. apply range1_nth. exact Hi.
  - cbn [entradas_proj saidas_proj]. unfold pv_len. rewrite Hidx.
    simpl List.length.
    replace (Z.of_nat 2 + i - 1)%Z with (i + 1)%Z by lia.
    rewrite inject_Z_plus.
    split; apply max0_eq.
    + rewrite He0, He1. ring.
    + rewrite Hs0, Hs1. ring.
Qed.

Lemma previsoes_single_month_witness :
  let RT := PyRuntime.runtime in
  let df := [lanc 2 "2024-01-20" "Saída" 400;
             lanc 1 "2024-01-05" "Entrada" 1000] in
  exists projecoes : list Projecao,
    page_previsoes df 2 = Projecoes projecoes
    /\ List.length projecoes = 2%nat
    /\ forall p, In p projecoes ->
         entradas_proj p == 1000 /\ saidas_proj p == 400.
Proof.
  intros RT df.
  assert (Hsome : ~ no_parseable_date df).
  { intros H. specialize (H _ (or_introl eq_refl)). discriminate H. }
  assert (Hmonth : forall p, In p (dropna_data_dt df) ->
                             to_period_M (snd p) = 648%Z).
  { intros p H. vm_compute in H.
    repeat (destruct H as [<-|H]; [reflexivity|]). destruct H. }
  destruct (@previsoes_single_month RT df 2 648 Hsome Hmonth)
    as (projecoes & Hp & Hl & Hall).
  exists projecoes. split; [exact Hp|]. split; [exact Hl|].
  intros p Hin. destruct (Hall p Hin) as (He & Hs & _).
  split; [rewrite He|rewrite Hs]; vm_compute; reflexivity.
Defined.

Lemma projetar_two_months_witness :
  let monthly :=
    {| pv_index := [648; 649]%Z;
       pv_columns := [("entrada"%string, [1000; 1100]);
                      ("saída"%string, [400; 500])] |} in
  exists p : Projecao,
    nth_error (projetar monthly 3) 1 = Some p
    /\ entradas_proj p == 1300 /\ saidas_proj p == 700.
Proof.
  intros monthly.
  destruct (@projetar_two_months monthly 3 648 649 1000 1100 400 500 2
              eq_refl eq_refl eq_refl ltac:(lia))
    as (p & Hn & He & Hs).
  exists p. split; [exact Hn|].
  split; [rewrite He|rewrite Hs]; vm_compute; reflexivity.
Defined.

(** ** The monthly table of [page_dashboard] *)



Section DashboardProperties.

Context {RT : Runtime}.



End DashboardProperties.

(** ** [fmt_currency] *)

Lemma str_append_assoc (a b c : string) :
  ((a ++ b) ++ c = a ++ b ++ c)%string.
Proof.
  induction a as [|x a IH]; simpl; [reflexivity|]. rewrite IH. reflexivity.
Qed.

Lemma trocar_separadores_map (s : string) :
  (forall c, In c (list_ascii_of_string s) -> c <> "_"%char) ->
  trocar_separadores s = str_map trocar s.
Proof.
  unfold trocar_separadores.
  induction s as [|c s IH]; intros H; [reflexivity|].
  simpl. rewrite IH by (intros c' Hc'; apply H; right; exact Hc').
  f_equal. unfold trocar.
  assert (Hc : Ascii.eqb c "_" = false).
  { apply Ascii.eqb_neq. apply H. left. reflexivity. }
  destruct (Ascii.eqb_spec c ",") as [->|H1]; [reflexivity|].
  destruct (Ascii.eqb_spec c ".") as [->|H2]; [reflexivity|].
  rewrite Hc. reflexivity.
Qed.

Lemma str_map_trocar_twice (s : string) :
  str_map trocar (str_map trocar s) = s.
Proof.
  induction s as [|c s IH]; [reflexivity|]. simpl. rewrite IH. f_equal.
  unfold trocar.
  destruct (Ascii.eqb_spec c ",") as [->|H1]; [reflexivity|].
  destruct (Ascii.eqb_spec c ".") as [->|H2]; [reflexivity|].
  destruct (Ascii.eqb_spec c ",") as [E|_]; [contradiction|].
  destruct (Ascii.eqb_spec c ".") as [E|_]; [contradiction|reflexivity].
Qed.

Lemma str_map_no_underscore (s : string) :
  (forall c, In c (list_ascii_of_string s) -> c <> "_"%char) ->
  forall c, In c (list_ascii_of_string (str_map trocar s)) -> c <> "_"%char.
Proof.
  induction s as [|c0 s IH]; intros H c Hc; [destruct Hc|].
  simpl in Hc. destruct Hc as [<-|Hc].
  - unfold trocar.
    destruct (Ascii.eqb_spec c0 ","); [discriminate|].
    destruct (Ascii.eqb_spec c0 "."); [discriminate|].
    apply H. left. reflexivity.
  - apply IH; [|exact Hc]. intros c' Hc'. apply H. right. exact Hc'.
Qed.

(** X18: when the formatted number has no underscore, the three replaces of
    [fmt_currency] exchange its commas and its points and change no other
    character, so that exchanging them again gives the formatted number
    back; and a negative amount is written as the minus sign followed by the
    text of the opposite amount. *)
Theorem fmt_currency_separators (format_2f : Q -> string) (value : Q)
        (simbolo : string) :
  (forall c, In c (list_ascii_of_string (format_2f (Qabs value))) ->
             c <> "_"%char) ->
  trocar_separadores (format_2f (Qabs value))
  = str_map trocar (format_2f (Qabs value))
  /\ trocar_separadores (trocar_separadores (format_2f (Qabs value)))
     = format_2f (Qabs value)
  /\ (0 <= value ->
      fmt_currency format_2f value simbolo
      = (simbolo ++ " " ++ str_map trocar (format_2f (Qabs value)))%string)
  /\ (value < 0 ->
      fmt_currency format_2f value simbolo
      = ("-" ++ fmt_currency format_2f (- value) simbolo)%string).
Proof.
  intros Hno.
  assert (E : trocar_separadores (format_2f (Qabs value))
              = str_map trocar (format_2f (Qabs value)))
    by (apply trocar_separadores_map; exact Hno).
  split; [exact E|]. split; [|split].
  - rewrite E. rewrite trocar_separadores_map
      by (apply str_map_no_underscore; exact Hno).
    apply str_map_trocar_twice.
  - intros Hpos. unfold fmt_currency. rewrite E.
    apply Qle_bool_iff in Hpos. rewrite Hpos.
    apply str_append_assoc.
  - intros Hneg. unfold fmt_currency.
    assert (E0 : Qle_bool 0 value = false).
    { destruct (Qle_bool 0 value) eqn:E0; [|reflexivity].
      apply Qle_bool_iff in E0. lra. }
    assert (E1 : Qle_bool 0 (- value) = true)
      by (apply Qle_bool_iff; lra).
    rewrite E0, E1.
    assert (Eabs : Qabs (- value) = Qabs value).
    { destruct value as [n d]. unfold Qabs, Qopp. simpl.
      rewrite Z.abs_opp. reflexivity. }
    rewrite Eabs. reflexivity.
Qed.

Lemma fmt_currency_separators_witness :
  let format_2f := fun _ : Q => "1,234.50"%string in
  fmt_currency format_2f (- (1234.5)) "R$" = "-R$ 1.234,50"%string.
Proof.
  intros format_2f.
  destruct (@fmt_currency_separators format_2f (- (1234.5)) "R$")
    as (_ & _ & _ & Hneg).
  - intros c H. simpl in H.
    repeat (destruct H as [<-|H]; [discriminate|]). destruct H.
  - rewrite Hneg; [reflexivity|]. reflexivity.
Defined.
